(** * SparkFun WM8960 example sketches: a shallow embedding

    Two Arduino sketches are embedded here:
    - [Example_12_AutomaticLevelControl.ino] (module [AlcExample]),
    - [Example_08_I2S_Passthrough.ino] (module [Passthrough]).

    A sketch is a pair [setup]/[loop] run by the Arduino core as
    [setup(); for (;;) loop();].  Both only sequence calls into platform
    libraries (Serial, Wire, the WM8960 driver object, the ESP32 I2S driver),
    so the embedding is a small monad whose computations thread the sketch's
    global variables and emit the calls they make as a list of events.
    Values the platform hands back (the codec's handshake answer, ADC
    readings, I2S transfers) are read from an environment record. *)

From Stdlib Require Import ZArith List String Lia Bool.
From Stdlib Require Import Init.Byte.
Import ListNotations.
Open Scope string_scope.
Open Scope list_scope.
Open Scope Z_scope.

(* ================================================================== *)
(** ** The platform *)
(* ================================================================== *)

Module Arduino.

(** An argument of a driver call: an integer, or a token kept as written
    in the sketch (a constant of the driver's header, a float literal). *)
Inductive arg : Type :=
| Val (z : Z)
| Lit (src : string).

(** [codec.method(args)] on the global [WM8960 codec] object. *)
Record codec_call : Type := Codec { method : string; args : list arg }.

Inductive i2s_port_t : Type := I2S_NUM_0 | I2S_NUM_1.

Inductive i2s_mode_flag : Type :=
| I2S_MODE_MASTER | I2S_MODE_SLAVE | I2S_MODE_TX | I2S_MODE_RX.

Inductive i2s_channel_fmt_t : Type :=
| I2S_CHANNEL_FMT_RIGHT_LEFT
| I2S_CHANNEL_FMT_ALL_RIGHT
| I2S_CHANNEL_FMT_ALL_LEFT
| I2S_CHANNEL_FMT_ONLY_RIGHT
| I2S_CHANNEL_FMT_ONLY_LEFT.

Inductive i2s_comm_format_t : Type :=
| I2S_COMM_FORMAT_I2S
| I2S_COMM_FORMAT_I2S_MSB
| I2S_COMM_FORMAT_I2S_LSB
| I2S_COMM_FORMAT_PCM.

(** [i2s_config_t]; [mode] is the set of flags or-ed together. *)
Record i2s_config_t : Type := {
  mode : list i2s_mode_flag;
  sample_rate : Z;
  bits_per_sample : Z;
  channel_format : i2s_channel_fmt_t;
  communication_format : i2s_comm_format_t;
  intr_alloc_flags : Z;
  dma_buf_count : Z;
  dma_buf_len : Z;
  use_apll : bool
}.

Record i2s_pin_config_t : Type := {
  bck_io_num : Z;
  ws_io_num : Z;
  data_out_num : Z;
  data_in_num : Z
}.

(** The calls a sketch makes, with the arguments it passes. *)
Inductive event : Type :=
| SerialBegin (baud : Z)
| SerialPrint (s : string)
| SerialPrintln (s : string)
| SerialPrintlnInt (v : Z)
| WireBegin
| CodecBegin
| CodecMethod (c : codec_call)
| AnalogRead (pin : string)
| Delay (ms : Z)
| I2sDriverInstall (port : i2s_port_t) (cfg : i2s_config_t)
| I2sSetPin (port : i2s_port_t) (pins : i2s_pin_config_t)
| I2sStart (port : i2s_port_t)
| I2sRead (port : i2s_port_t) (size : Z)
| I2sWrite (port : i2s_port_t) (size : Z) (src : list byte).

(** How a computation ends: it returns, it is still inside a loop when the
    fuel is spent, or it touches memory outside an object. *)
Inductive outcome (St A : Type) : Type :=
| Done (a : A) (s : St) (t : list event)
| Spinning (s : St) (t : list event)
| Fault (s : St) (t : list event).

Arguments Done {St A} a s t.
Arguments Spinning {St A} s t.
Arguments Fault {St A} s t.

Definition M (St A : Type) : Type := St -> outcome St A.

Definition ret {St A} (a : A) : M St A := fun s => Done a s [].

Definition after {St A} (t1 : list event) (o : outcome St A) : outcome St A :=
  match o with
  | Done a s t2 => Done a s (t1 ++ t2)
  | Spinning s t2 => Spinning s (t1 ++ t2)
  | Fault s t2 => Fault s (t1 ++ t2)
  end.

Definition bind {St A B} (m : M St A) (k : A -> M St B) : M St B :=
  fun s =>
    match m s with
    | Done a s1 t1 => after t1 (k a s1)
    | Spinning s1 t1 => Spinning s1 t1
    | Fault s1 t1 => Fault s1 t1
    end.

Declare Scope sketch_scope.
Delimit Scope sketch_scope with sketch.
Notation "x <- c1 ;; c2" := (bind c1 (fun x => c2))
  (at level 61, c1 at next level, right associativity) : sketch_scope.
Notation "' pat <- c1 ;; c2" := (bind c1 (fun x => match x with pat => c2 end))
  (at level 61, pat pattern, c1 at next level, right associativity) : sketch_scope.
Notation "c1 ;; c2" := (bind c1 (fun _ => c2))
  (at level 61, right associativity) : sketch_scope.
Open Scope sketch_scope.

Definition call {St} (e : event) : M St unit := fun s => Done tt s [e].

Definition Serial_begin {St} (baud : Z) : M St unit := call (SerialBegin baud).
Definition Serial_print {St} (s : string) : M St unit := call (SerialPrint s).
Definition Serial_println {St} (s : string) : M St unit := call (SerialPrintln s).
Definition Serial_println_int {St} (v : Z) : M St unit := call (SerialPrintlnInt v).
Definition Wire_begin {St} : M St unit := call WireBegin.
Definition delay {St} (ms : Z) : M St unit := call (Delay ms).

(** [codec.name(a)]; the driver's return value is ignored by the sketches. *)
Definition codec {St} (name : string) (a : list arg) : M St unit :=
  call (CodecMethod (Codec name a)).

(** [codec.begin()]: the handshake, answered by the hardware. *)
Definition codec_begin {St} (responds : bool) : M St bool :=
  fun s => Done responds s [CodecBegin].

Definition gets {St A} (f : St -> A) : M St A := fun s => Done (f s) s [].

Definition modify {St} (f : St -> St) : M St unit := fun s => Done tt (f s) [].

(** [while (1) body]: never left; [fuel] bounds how long it is watched. *)
Fixpoint while_1 {St A} (fuel : nat) (body : M St unit) : M St A :=
  fun s =>
    match fuel with
    | O => Spinning s []
    | S fuel' =>
        match body s with
        | Done _ s1 t1 => after t1 (while_1 fuel' body s1)
        | Spinning s1 t1 => Spinning s1 t1
        | Fault s1 t1 => Fault s1 t1
        end
    end.

(** [for (int i = lo; i < lo + n; i++) body(i)]. *)
Fixpoint for_upto {St} (n : nat) (i : Z) (body : Z -> M St unit) : M St unit :=
  match n with
  | O => ret tt
  | S n' => body i ;; for_upto n' (i + 1) body
  end.

Definition for_lt {St} (lo hi : Z) (body : Z -> M St unit) : M St unit :=
  for_upto (Z.to_nat (hi - lo)) lo body.

(** [n] turns of the core's [for (;;) loop();]. *)
Fixpoint iterate {St} (n : nat) (body : M St unit) : M St unit :=
  match n with
  | O => ret tt
  | S n' => body ;; iterate n' body
  end.

(** [long] and [int] are 32-bit two's complement on the ESP32. *)
Definition wrap32 (z : Z) : Z := (z + 2 ^ 31) mod 2 ^ 32 - 2 ^ 31.

(** The Arduino core's
    [long map(long x, long in_min, long in_max, long out_min, long out_max)]:
    [(x - in_min) * (out_max - out_min) / (in_max - in_min) + out_min]
    in [long] arithmetic, the division truncating toward zero.  (The
    sketches call it with the constant input span 0 .. 4096 only.) *)
Definition map (x in_min in_max out_min out_max : Z) : Z :=
  wrap32
    (Z.quot (wrap32 (wrap32 (x - in_min) * wrap32 (out_max - out_min)))
            (wrap32 (in_max - in_min))
     + out_min).

(** [esp_err_t] success code. *)
Definition ESP_OK : Z := 0.

Definition events_of {St A} (o : outcome St A) : list event :=
  match o with
  | Done _ _ t => t
  | Spinning _ t => t
  | Fault _ t => t
  end.

Definition is_codec_method (e : event) : bool :=
  match e with CodecMethod _ => true | _ => false end.

Definition is_codec_begin (e : event) : bool :=
  match e with CodecBegin => true | _ => false end.

Definition is_Wire_begin (e : event) : bool :=
  match e with WireBegin => true | _ => false end.

Definition is_i2s (e : event) : bool :=
  match e with
  | I2sDriverInstall _ _ | I2sSetPin _ _ | I2sStart _
  | I2sRead _ _ | I2sWrite _ _ _ => true
  | _ => false
  end.

(** Calls that configure the I2S peripheral or the codec. *)
Definition is_config (e : event) : bool :=
  match e with
  | I2sDriverInstall _ _ | I2sSetPin _ _ | I2sStart _
  | CodecMethod _ | CodecBegin | WireBegin => true
  | _ => false
  end.

(** Is [e] the call [codec.name(..)]? *)
Definition calls (name : string) (e : event) : bool :=
  match e with
  | CodecMethod c => String.eqb (method c) name
  | _ => false
  end.

Definition count (p : event -> bool) (t : list event) : nat :=
  List.length (List.filter p t).

End Arduino.

Import Arduino.

(* ================================================================== *)
(** ** Example 12: automatic level control *)
(* ================================================================== *)

Module AlcExample.

(** What the hardware answers: whether the codec acknowledges on I2C, and
    the successive values returned by [analogRead]. *)
Record env : Type := { codec_responds : bool; adc : nat -> Z }.

(** The sketch's global [long userInputA0], and how many ADC readings have
    been taken so far. *)
Record state : Type := { userInputA0 : Z; adc_reads : nat }.

Definition initial : state := {| userInputA0 := 0; adc_reads := 0 |}.

Definition set_userInputA0 (v : Z) (s : state) : state :=
  {| userInputA0 := v; adc_reads := adc_reads s |}.

Definition analogRead (e : env) (pin : string) : M state Z :=
  fun s =>
    Done (adc e (adc_reads s))
         {| userInputA0 := userInputA0 s; adc_reads := S (adc_reads s) |}
         [AnalogRead pin].

Definition codec_setup : M state unit :=
  codec "enableVREF" [] ;;
  codec "enableVMID" [] ;;
  codec "enableLMIC" [] ;;
  codec "enableRMIC" [] ;;
  codec "connectLMN1" [] ;;
  codec "connectRMN1" [] ;;
  codec "disableLINMUTE" [] ;;
  codec "disableRINMUTE" [] ;;
  codec "setLMICBOOST" [Lit "WM8960_MIC_BOOST_GAIN_0DB"] ;;
  codec "setRMICBOOST" [Lit "WM8960_MIC_BOOST_GAIN_0DB"] ;;
  codec "connectLMIC2B" [] ;;
  codec "connectRMIC2B" [] ;;
  codec "enableAINL" [] ;;
  codec "enableAINR" [] ;;
  codec "disableLB2LO" [] ;;
  codec "disableRB2RO" [] ;;
  codec "enableLD2LO" [] ;;
  codec "enableRD2RO" [] ;;
  codec "setLB2LOVOL" [Lit "WM8960_OUTPUT_MIXER_GAIN_NEG_21DB"] ;;
  codec "setRB2ROVOL" [Lit "WM8960_OUTPUT_MIXER_GAIN_NEG_21DB"] ;;
  codec "enableLOMIX" [] ;;
  codec "enableROMIX" [] ;;
  codec "enablePLL" [] ;;
  codec "setPLLPRESCALE" [Lit "WM8960_PLLPRESCALE_DIV_2"] ;;
  codec "setSMD" [Lit "WM8960_PLL_MODE_FRACTIONAL"] ;;
  codec "setCLKSEL" [Lit "WM8960_CLKSEL_PLL"] ;;
  codec "setSYSCLKDIV" [Lit "WM8960_SYSCLK_DIV_BY_2"] ;;
  codec "setBCLKDIV" [Val 4] ;;
  codec "setDCLKDIV" [Lit "WM8960_DCLKDIV_16"] ;;
  codec "setPLLN" [Val 7] ;;
  codec "setPLLK" [Val 0x86; Val 0xC2; Val 0x26] ;;
  codec "enableMasterMode" [] ;;
  codec "setALRCGPIO" [] ;;
  codec "enableAdcLeft" [] ;;
  codec "enableAdcRight" [] ;;
  codec "enableDacLeft" [] ;;
  codec "enableDacRight" [] ;;
  codec "disableDacMute" [] ;;
  codec "enableLoopBack" [] ;;
  codec "disableDacMute" [] ;;
  codec "enableHeadphones" [] ;;
  codec "enableOUT3MIX" [] ;;
  codec "enablePgaZeroCross" [] ;;
  codec "enableAlc" [Lit "WM8960_ALC_MODE_STEREO"] ;;
  codec "setAlcTarget" [Lit "WM8960_ALC_TARGET_LEVEL_NEG_6DB"] ;;
  codec "setAlcDecay" [Lit "WM8960_ALC_DECAY_TIME_192MS"] ;;
  codec "setAlcAttack" [Lit "WM8960_ALC_ATTACK_TIME_24MS"] ;;
  codec "setAlcMaxGain" [Lit "WM8960_ALC_MAX_GAIN_LEVEL_30DB"] ;;
  codec "setAlcMinGain" [Lit "WM8960_ALC_MIN_GAIN_LEVEL_NEG_17_25DB"] ;;
  codec "setAlcHold" [Lit "WM8960_ALC_HOLD_TIME_0MS"] ;;
  Serial_println "Headphopne Amp Volume set to +0dB" ;;
  codec "setHeadphoneVolumeDB" [Lit "0.00"] ;;
  Serial_println
    "Codec setup complete. Listen to left/right INPUT1 on Headphone outputs.".

Definition setup (e : env) (fuel : nat) : M state unit :=
  Serial_begin 115200 ;;
  Serial_println "Example 12 - Automatic Level Control" ;;
  Wire_begin ;;
  ok <- codec_begin (codec_responds e) ;;
  (if Bool.eqb ok false then
     Serial_println "The device did not respond. Please check wiring." ;;
     while_1 fuel (ret tt)
   else ret tt) ;;
  Serial_println "Device is connected properly." ;;
  codec_setup.

(** The body of the averaging loop:
    [userInputA0 += analogRead(A0); delay(1);] *)
Definition take_reading (e : env) (i : Z) : M state unit :=
  v <- analogRead e "A0" ;;
  modify (fun s => set_userInputA0 (wrap32 (userInputA0 s + v)) s) ;;
  delay 1.

Definition loop (e : env) : M state unit :=
  for_lt 0 250 (take_reading e) ;;
  modify (fun s => set_userInputA0 (Z.quot (userInputA0 s) 250) s) ;;
  u <- gets userInputA0 ;;
  let alcTarget := wrap32 (map u 0 4096 15 0) in
  Serial_print "alcTarget: " ;;
  Serial_println_int alcTarget ;;
  codec "setAlcTarget" [Val alcTarget] ;;
  delay 1000.

(** [setup] followed by [n] turns of [loop], from power-on. *)
Definition sketch (e : env) (fuel n : nat) : outcome state unit :=
  (setup e fuel ;; iterate n (loop e)) initial.

End AlcExample.

(* ================================================================== *)
(** ** Example 8: I2S passthrough *)
(* ================================================================== *)

Module Passthrough.

Definition I2S_WS : Z := 25.
Definition I2S_SD : Z := 17.
Definition I2S_SDO : Z := 4.
Definition I2S_SCK : Z := 16.

Definition I2S_PORT : i2s_port_t := I2S_NUM_0.

Definition bufferLen : Z := 64.

(** [sizeof(int16_t)] *)
Definition sizeof_int16_t : Z := 2.

(** What one [i2s_read] hands back: its return code and the bytes the DMA
    has ready.  What one [i2s_write] hands back: its return code and the
    count it stores in [*bytes_written]. *)
Record rx_result : Type := { rx_err : Z; rx_data : list byte }.
Record tx_result : Type := { tx_err : Z; tx_written : Z }.

Record env : Type := {
  codec_responds : bool;
  rx : nat -> rx_result;
  tx : nat -> tx_result
}.

(** The global [int16_t sBuffer[bufferLen]] as the bytes of its object
    representation, the state of the I2S driver, and how many transfers
    have been made so far. *)
Record state : Type := {
  sBuffer : list byte;
  i2s_config : option i2s_config_t;
  pin_config : option i2s_pin_config_t;
  started : bool;
  reads : nat;
  writes : nat
}.

Definition initial : state := {|
  sBuffer := List.repeat x00 (Z.to_nat (bufferLen * sizeof_int16_t));
  i2s_config := None;
  pin_config := None;
  started := false;
  reads := 0%nat;
  writes := 0%nat
|}.

(** [i2s_driver_install(port, &cfg, 0, NULL)] *)
Definition i2s_driver_install (port : i2s_port_t) (cfg : i2s_config_t)
  : M state unit :=
  fun s =>
    Done tt
      {| sBuffer := sBuffer s; i2s_config := Some cfg;
         pin_config := pin_config s; started := started s;
         reads := reads s; writes := writes s |}
      [I2sDriverInstall port cfg].

(** [i2s_set_pin(port, &pins)] *)
Definition i2s_set_pin (port : i2s_port_t) (pins : i2s_pin_config_t)
  : M state unit :=
  fun s =>
    Done tt
      {| sBuffer := sBuffer s; i2s_config := i2s_config s;
         pin_config := Some pins; started := started s;
         reads := reads s; writes := writes s |}
      [I2sSetPin port pins].

Definition i2s_start (port : i2s_port_t) : M state unit :=
  fun s =>
    Done tt
      {| sBuffer := sBuffer s; i2s_config := i2s_config s;
         pin_config := pin_config s; started := true;
         reads := reads s; writes := writes s |}
      [I2sStart port].

(** [i2s_read(port, &sBuffer, size, &bytes_read, portMAX_DELAY)]: the driver
    copies at most [size] bytes to the start of [sBuffer] and reports how
    many.  A request larger than the object is a fault.  Returns the pair
    (return code, [bytes_read]). *)
Definition i2s_read (e : env) (port : i2s_port_t) (size : Z) : M state (Z * Z) :=
  fun s =>
    if (Z.of_nat (List.length (sBuffer s)) <? size) || (size <? 0) then
      Fault s [I2sRead port size]
    else
      let r := rx e (reads s) in
      let got := List.firstn (Z.to_nat size) (rx_data r) in
      Done (rx_err r, Z.of_nat (List.length got))
        {| sBuffer := got ++ List.skipn (List.length got) (sBuffer s);
           i2s_config := i2s_config s; pin_config := pin_config s;
           started := started s;
           reads := S (reads s); writes := writes s |}
        [I2sRead port size].

(** [i2s_write(port, &sBuffer, size, &bytes_written, portMAX_DELAY)]: the
    driver is handed the first [size] bytes of [sBuffer].  A request larger
    than the object is a fault.  Returns the pair
    (return code, [bytes_written]). *)
Definition i2s_write (e : env) (port : i2s_port_t) (size : Z) : M state (Z * Z) :=
  fun s =>
    if (Z.of_nat (List.length (sBuffer s)) <? size) || (size <? 0) then
      Fault s [I2sWrite port size []]
    else
      let r := tx e (writes s) in
      Done (tx_err r, tx_written r)
        {| sBuffer := sBuffer s;
           i2s_config := i2s_config s; pin_config := pin_config s;
           started := started s;
           reads := reads s; writes := S (writes s) |}
        [I2sWrite port size (List.firstn (Z.to_nat size) (sBuffer s))].

Definition codec_setup : M state unit :=
  codec "enableVREF" [] ;;
  codec "enableVMID" [] ;;
  codec "enable_LMIC" [] ;;
  codec "enable_RMIC" [] ;;
  codec "connect_LMN1" [] ;;
  codec "connect_RMN1" [] ;;
  codec "disable_LINMUTE" [] ;;
  codec "disable_RINMUTE" [] ;;
  codec "set_LMICBOOST" [Val 0] ;;
  codec "set_RMICBOOST" [Val 0] ;;
  codec "connect_LMIC2B" [] ;;
  codec "connect_RMIC2B" [] ;;
  codec "enable_AINL" [] ;;
  codec "enable_AINR" [] ;;
  codec "disableLB2LO" [] ;;
  codec "disableRB2RO" [] ;;
  codec "enableLD2LO" [] ;;
  codec "enableRD2RO" [] ;;
  codec "setLB2LOVOL" [Val 0] ;;
  codec "setRB2ROVOL" [Val 0] ;;
  codec "enableLOMIX" [] ;;
  codec "enableROMIX" [] ;;
  codec "enablePLL" [] ;;
  codec "set_PLLPRESCALE" [Lit "PLLPRESCALE_DIV_2"] ;;
  codec "set_SMD" [Lit "PLL_MODE_FRACTIONAL"] ;;
  codec "set_CLKSEL" [Lit "CLKSEL_PLL"] ;;
  codec "set_SYSCLKDIV" [Lit "SYSCLK_DIV_BY_2"] ;;
  codec "set_BCLKDIV" [Val 4] ;;
  codec "set_DCLKDIV" [Lit "DCLKDIV_16"] ;;
  codec "set_PLLN" [Val 7] ;;
  codec "set_PLLK" [Val 0x86; Val 0xC2; Val 0x26] ;;
  codec "set_WL" [Lit "WL_16BIT"] ;;
  codec "enablePeripheralMode" [] ;;
  codec "enableAdcLeft" [] ;;
  codec "enableAdcRight" [] ;;
  codec "enableDacLeft" [] ;;
  codec "enableDacRight" [] ;;
  codec "disableDacMute" [] ;;
  codec "disableLoopBack" [] ;;
  codec "disableDacMute" [] ;;
  codec "enableHeadphones" [] ;;
  codec "enableOUT3MIX" [] ;;
  Serial_println "Volume set to +0dB" ;;
  codec "setHeadphoneVolume" [Val 120] ;;
  Serial_println
    "Codec Setup complete. Listen to left/right INPUT1 on Headphone outputs.".

Definition i2s_install : M state unit :=
  let i2s_config := {|
    mode := [I2S_MODE_MASTER; I2S_MODE_RX; I2S_MODE_TX];
    sample_rate := 44100;
    bits_per_sample := 16;
    channel_format := I2S_CHANNEL_FMT_RIGHT_LEFT;
    communication_format := I2S_COMM_FORMAT_I2S_MSB;
    intr_alloc_flags := 0;
    dma_buf_count := 8;
    dma_buf_len := bufferLen;
    use_apll := false
  |} in
  i2s_driver_install I2S_PORT i2s_config.

Definition i2s_setpin : M state unit :=
  let pin_config := {|
    bck_io_num := I2S_SCK;
    ws_io_num := I2S_WS;
    data_out_num := I2S_SDO;
    data_in_num := I2S_SD
  |} in
  i2s_set_pin I2S_PORT pin_config.

Definition setup (e : env) (fuel : nat) : M state unit :=
  Serial_begin 115200 ;;
  Serial_println "Example 8 - I2S Passthough" ;;
  Wire_begin ;;
  ok <- codec_begin (codec_responds e) ;;
  (if Bool.eqb ok false then
     Serial_println "The device did not respond. Please check wiring." ;;
     while_1 fuel (ret tt)
   else ret tt) ;;
  Serial_println "Device is connected properly." ;;
  codec_setup ;;
  i2s_install ;;
  i2s_setpin ;;
  i2s_start I2S_PORT.

Definition loop (e : env) : M state unit :=
  ' (result, bytesIn) <- i2s_read e I2S_PORT bufferLen ;;
  if result =? ESP_OK then
    ' (result_w, bytesOut) <- i2s_write e I2S_PORT bytesIn ;;
    ret tt
  else ret tt.

(** [setup] followed by [n] turns of [loop], from power-on. *)
Definition sketch (e : env) (fuel n : nat) : outcome state unit :=
  (setup e fuel ;; iterate n (loop e)) initial.

End Passthrough.

(* ================================================================== *)
(** ** Derived notions used in the statements *)
(* ================================================================== *)

(** The state a computation is in when it is last observed. *)
Definition state_of {St A} (o : outcome St A) : St :=
  match o with
  | Done _ s _ => s
  | Spinning s _ => s
  | Fault s _ => s
  end.

Definition faulted {St A} (o : outcome St A) : bool :=
  match o with Fault _ _ => true | _ => false end.

Definition returned {St A} (o : outcome St A) : bool :=
  match o with Done _ _ _ => true | _ => false end.

(** Traffic on the I2C control bus: opening it, the handshake, and the
    driver's register-configuration methods. *)
Definition on_i2c (e : event) : bool :=
  is_Wire_begin e || is_codec_begin e || is_codec_method e.

(** The integer arguments of the [codec.setAlcTarget(int)] calls of a trace,
    in order. *)
Fixpoint alc_targets (t : list event) : list Z :=
  match t with
  | [] => []
  | CodecMethod (Codec name [Val v]) :: t' =>
      if String.eqb name "setAlcTarget" then v :: alc_targets t'
      else alc_targets t'
  | _ :: t' => alc_targets t'
  end.

(** The sum of the [n] ADC readings numbered [r], [r+1], ... *)
Fixpoint sum_reads (adc : nat -> Z) (r n : nat) : Z :=
  match n with
  | O => 0
  | S n' => adc r + sum_reads adc (S r) n'
  end.

(** What the averaging loop leaves in a 32-bit accumulator that held [u]. *)
Fixpoint accumulate (adc : nat -> Z) (n : nat) (u : Z) (r : nat) : Z :=
  match n with
  | O => u
  | S n' => accumulate adc n' (wrap32 (u + adc r)) (S r)
  end.

(** The calls made by [n] turns of the averaging loop. *)
Fixpoint reading_events (n : nat) : list event :=
  match n with
  | O => []
  | S n' => AnalogRead "A0" :: Delay 1 :: reading_events n'
  end.

(** The spec's reading of the ALC example: the target of turn [k] of [loop]
    is the mean of that turn's 250 readings, mapped from 0-4096 to 15-0. *)
Definition mean_alcTarget (adc : nat -> Z) (k : nat) : Z :=
  map (Z.quot (sum_reads adc (250 * k) 250) 250) 0 4096 15 0.

(** The ALC parameter setters of the WM8960 driver. *)
Definition alc_parameters : list string :=
  ["setAlcTarget"; "setAlcAttack"; "setAlcDecay"; "setAlcHold";
   "setAlcMinGain"; "setAlcMaxGain"].

(** The spec's reading: every ALC parameter is written exactly once. *)
Definition alc_written_once (t : list event) : Prop :=
  forall p, In p alc_parameters -> count (calls p) t = 1%nat.

(** A potentiometer turned fully up, and one turned fully down. *)
Definition full_scale : AlcExample.env :=
  {| AlcExample.codec_responds := true; AlcExample.adc := fun _ => 4095 |}.

Definition grounded : AlcExample.env :=
  {| AlcExample.codec_responds := true; AlcExample.adc := fun _ => 0 |}.

Definition unplugged : AlcExample.env :=
  {| AlcExample.codec_responds := false; AlcExample.adc := fun _ => 0 |}.

(** An I2S peer that delivers the same three bytes on every read, with a
    given return code for reads and for writes. *)
Definition peer (responds : bool) (read_code write_code : Z) : Passthrough.env :=
  {| Passthrough.codec_responds := responds;
     Passthrough.rx := fun _ =>
       {| Passthrough.rx_err := read_code;
          Passthrough.rx_data := [x01; x02; x03] |};
     Passthrough.tx := fun _ =>
       {| Passthrough.tx_err := write_code; Passthrough.tx_written := 3 |} |}.

(** [sizeof(sBuffer)] *)
Definition sizeof_sBuffer : Z :=
  Passthrough.bufferLen * Passthrough.sizeof_int16_t.

(** The I2S transfers of a trace stay inside [sBuffer], and inside its
    first [bufferLen] bytes. *)
Definition within_sBuffer (e : event) : Prop :=
  match e with
  | I2sRead _ size => 0 <= size <= Passthrough.bufferLen
  | I2sWrite _ size src =>
      0 <= size <= Passthrough.bufferLen /\ Z.of_nat (List.length src) = size
  | _ => True
  end.

(** The part of the passthrough state that holds configuration. *)
Definition configuration (s : Passthrough.state)
  : option i2s_config_t * option i2s_pin_config_t * bool :=
  (Passthrough.i2s_config s, Passthrough.pin_config s, Passthrough.started s).

(** The state [i2s_read] leaves behind when it has copied [got]. *)
Definition received (got : list byte) (s : Passthrough.state) : Passthrough.state :=
  {| Passthrough.sBuffer := got ++ List.skipn (List.length got) (Passthrough.sBuffer s);
     Passthrough.i2s_config := Passthrough.i2s_config s;
     Passthrough.pin_config := Passthrough.pin_config s;
     Passthrough.started := Passthrough.started s;
     Passthrough.reads := S (Passthrough.reads s);
     Passthrough.writes := Passthrough.writes s |}.

Definition sent (s : Passthrough.state) : Passthrough.state :=
  {| Passthrough.sBuffer := Passthrough.sBuffer s;
     Passthrough.i2s_config := Passthrough.i2s_config s;
     Passthrough.pin_config := Passthrough.pin_config s;
     Passthrough.started := Passthrough.started s;
     Passthrough.reads := Passthrough.reads s;
     Passthrough.writes := S (Passthrough.writes s) |}.

Module AlcNotions.
Import AlcExample.

(** What [setup] has done when it sits in [while (1);], and what it has
    done before [codec_setup] when the codec answered. *)
Definition refused : list event :=
  [SerialBegin 115200;
   SerialPrintln "Example 12 - Automatic Level Control";
   WireBegin;
   CodecBegin;
   SerialPrintln "The device did not respond. Please check wiring."].

Definition greeted : list event :=
  [SerialBegin 115200;
   SerialPrintln "Example 12 - Automatic Level Control";
   WireBegin;
   CodecBegin;
   SerialPrintln "Device is connected properly."].

(** The state and the target one turn of [loop] computes from [s]. *)
Definition averaged (e : env) (s : state) : Z :=
  Z.quot (accumulate (adc e) 250 (userInputA0 s) (adc_reads s)) 250.

Definition next (e : env) (s : state) : state :=
  {| userInputA0 := averaged e s; adc_reads := (adc_reads s + 250)%nat |}.

Definition target (e : env) (s : state) : Z :=
  wrap32 (map (averaged e s) 0 4096 15 0).

Definition loop_events (v : Z) : list event :=
  reading_events 250 ++
  [SerialPrint "alcTarget: "; SerialPrintlnInt v;
   CodecMethod (Codec "setAlcTarget" [Val v]); Delay 1000].

(** The state after [n] turns of [loop] from [s], and the calls they make. *)
Fixpoint turns_state (e : env) (n : nat) (s : state) : state :=
  match n with
  | O => s
  | S n' => turns_state e n' (next e s)
  end.

Fixpoint turns_events (e : env) (n : nat) (s : state) : list event :=
  match n with
  | O => []
  | S n' => loop_events (target e s) ++ turns_events e n' (next e s)
  end.

(** The ADC of the board is 12 bits wide. *)
Definition adc_12bit (e : env) : Prop := forall k, 0 <= adc e k <= 4095.

Definition bounded (s : state) : Prop := 0 <= userInputA0 s <= 4111.

End AlcNotions.

Module PassNotions.
Import Passthrough.

(** What [setup] has done when it sits in [while (1);], and what it has
    done before [codec_setup] when the codec answered. *)
Definition refused : list event :=
  [SerialBegin 115200;
   SerialPrintln "Example 8 - I2S Passthough";
   WireBegin;
   CodecBegin;
   SerialPrintln "The device did not respond. Please check wiring."].

Definition greeted : list event :=
  [SerialBegin 115200;
   SerialPrintln "Example 8 - I2S Passthough";
   WireBegin;
   CodecBegin;
   SerialPrintln "Device is connected properly."].

(** The driver state [setup] leaves behind. *)
Definition installed_config : i2s_config_t := {|
  mode := [I2S_MODE_MASTER; I2S_MODE_RX; I2S_MODE_TX];
  sample_rate := 44100;
  bits_per_sample := 16;
  channel_format := I2S_CHANNEL_FMT_RIGHT_LEFT;
  communication_format := I2S_COMM_FORMAT_I2S_MSB;
  intr_alloc_flags := 0;
  dma_buf_count := 8;
  dma_buf_len := 64;
  use_apll := false
|}.

Definition installed_pins : i2s_pin_config_t := {|
  bck_io_num := 16;
  ws_io_num := 25;
  data_out_num := 4;
  data_in_num := 17
|}.

Definition i2s_setup_events : list event :=
  [I2sDriverInstall I2S_NUM_0 installed_config;
   I2sSetPin I2S_NUM_0 installed_pins;
   I2sStart I2S_NUM_0].

Definition configured (s : state) : state :=
  {| sBuffer := sBuffer s;
     i2s_config := Some installed_config;
     pin_config := Some installed_pins;
     started := true;
     reads := reads s;
     writes := writes s |}.

(** [sBuffer] has the size it is declared with. *)
Definition allocated (s : state) : Prop :=
  Z.of_nat (List.length (sBuffer s)) = sizeof_sBuffer.

(** The bytes the next [i2s_read] of [bufferLen] bytes copies, and whether
    it reports [ESP_OK]. *)
Definition incoming (e : env) (s : state) : list byte :=
  List.firstn (Z.to_nat bufferLen) (rx_data (rx e (reads s))).

Definition read_ok (e : env) (s : state) : bool :=
  rx_err (rx e (reads s)) =? ESP_OK.

(** The state one turn of [loop] leaves, and the calls it makes. *)
Definition next (e : env) (s : state) : state :=
  if read_ok e s then sent (received (incoming e s) s)
  else received (incoming e s) s.

Definition loop_events (e : env) (s : state) : list event :=
  I2sRead I2S_PORT bufferLen ::
  (if read_ok e s
   then [I2sWrite I2S_PORT (Z.of_nat (List.length (incoming e s))) (incoming e s)]
   else []).

Fixpoint turns_state (e : env) (n : nat) (s : state) : state :=
  match n with
  | O => s
  | S n' => turns_state e n' (next e s)
  end.

Fixpoint turns_events (e : env) (n : nat) (s : state) : list event :=
  match n with
  | O => []
  | S n' => loop_events e s ++ turns_events e n' (next e s)
  end.

(** The spec's reading: no return code of [i2s_read] or [i2s_write] has any
    influence on what a turn of [loop] does. *)
Definition return_codes_ignored : Prop :=
  forall (e e' : env) (s : state),
    allocated s ->
    (forall k, rx_data (rx e k) = rx_data (rx e' k)) ->
    (forall k, tx_written (tx e k) = tx_written (tx e' k)) ->
    events_of (loop e s) = events_of (loop e' s).

End PassNotions.

Module AlcMeasures.
Import AlcExample AlcNotions.

(** The integers a trace prints with [Serial.println(int)], in order. *)
Fixpoint printed_ints (t : list event) : list Z :=
  match t with
  | [] => []
  | SerialPrintlnInt v :: t' => v :: printed_ints t'
  | _ :: t' => printed_ints t'
  end.

(** The milliseconds a trace spends in [delay]. *)
Fixpoint total_delay (t : list event) : Z :=
  match t with
  | [] => 0
  | Delay ms :: t' => ms + total_delay t'
  | _ :: t' => total_delay t'
  end.

Definition is_analogRead (e : event) : bool :=
  match e with AnalogRead _ => true | _ => false end.

(** [analogRead] returns a [uint16_t] on the ESP32. *)
Definition adc_16bit (e : env) : Prop := forall k, 0 <= adc e k <= 65535.

(** [userInputA0] after [n] turns of [loop], computed in unbounded
    integers. *)
Fixpoint exact_average (adc : nat -> Z) (n : nat) : Z :=
  match n with
  | O => 0
  | S n' => Z.quot (exact_average adc n' + sum_reads adc (250 * n') 250) 250
  end.

(** The mean of the 250 readings of turn [k], rounded down. *)
Definition mean_of_turn (adc : nat -> Z) (k : nat) : Z :=
  Z.quot (sum_reads adc (250 * k) 250) 250.

(** Every call of [first] in [t] comes before every call of [later]. *)
Definition calls_precede (first later : string) (t : list event) : Prop :=
  exists l1 l2,
    t = l1 ++ l2
    /\ count (calls first) l2 = 0%nat
    /\ count (calls later) l1 = 0%nat.

End AlcMeasures.

Module PassMeasures.
Import Passthrough PassNotions.

Definition is_read (e : event) : bool :=
  match e with I2sRead _ _ => true | _ => false end.

Definition is_write (e : event) : bool :=
  match e with I2sWrite _ _ _ => true | _ => false end.

(** The bytes a trace hands to [i2s_write], in order. *)
Fixpoint written_bytes (t : list event) : list byte :=
  match t with
  | [] => []
  | I2sWrite _ _ src :: t' => src ++ written_bytes t'
  | _ :: t' => written_bytes t'
  end.

(** What the reads numbered [k], ..., [k + n - 1] deliver when each asks
    for [bufferLen] bytes, keeping only the reads that return [ESP_OK]; and
    how many of them return [ESP_OK]. *)
Fixpoint accepted (e : env) (k n : nat) : list byte :=
  match n with
  | O => []
  | S n' =>
      (if rx_err (rx e k) =? ESP_OK
       then List.firstn (Z.to_nat bufferLen) (rx_data (rx e k))
       else [])
      ++ accepted e (S k) n'
  end.

Fixpoint ok_reads (e : env) (k n : nat) : nat :=
  match n with
  | O => O
  | S n' =>
      if rx_err (rx e k) =? ESP_OK then S (ok_reads e (S k) n')
      else ok_reads e (S k) n'
  end.

(** An I2S peer whose reads succeed on even turns only and deliver more
    than [bufferLen] bytes. *)
Definition flaky : env :=
  {| codec_responds := true;
     rx := fun k =>
       {| rx_err := if Nat.even k then 0 else 259;
          rx_data := List.repeat x2a 70 |};
     tx := fun _ => {| tx_err := 0; tx_written := 64 |} |}.

End PassMeasures.

(* ================================================================== *)
(** ** The monad *)
(* ================================================================== *)

Section Monad.
Context {St : Type}.

Lemma after_nil {A} (o : outcome St A) : after [] o = o.
Proof. destruct o; reflexivity. Qed.

Lemma after_after {A} (t1 t2 : list event) (o : outcome St A) :
  after t1 (after t2 o) = after (t1 ++ t2) o.
Proof. destruct o; simpl; rewrite app_assoc; reflexivity. Qed.

Lemma events_of_after {A} (t1 : list event) (o : outcome St A) :
  events_of (after t1 o) = t1 ++ events_of o.
Proof. destruct o; reflexivity. Qed.

Lemma state_of_after {A} (t1 : list event) (o : outcome St A) :
  state_of (after t1 o) = state_of o.
Proof. destruct o; reflexivity. Qed.

Lemma faulted_after {A} (t1 : list event) (o : outcome St A) :
  faulted (after t1 o) = faulted o.
Proof. destruct o; reflexivity. Qed.

Lemma bind_Done {A B} (m : M St A) (k : A -> M St B) s a s1 t1 :
  m s = Done a s1 t1 -> bind m k s = after t1 (k a s1).
Proof. intros H; unfold bind; rewrite H; reflexivity. Qed.

Lemma bind_Spinning {A B} (m : M St A) (k : A -> M St B) s s1 t1 :
  m s = Spinning s1 t1 -> bind m k s = Spinning s1 t1.
Proof. intros H; unfold bind; rewrite H; reflexivity. Qed.

(** [while (1);] never yields, however long it is watched. *)
Lemma while_1_empty_body {A} (fuel : nat) (s : St) :
  @while_1 St A fuel (ret tt) s = Spinning s [].
Proof.
  induction fuel as [|fuel IH]; simpl; [reflexivity|].
  rewrite IH; reflexivity.
Qed.

Lemma bind_assoc {A B C} (m : M St A) (k : A -> M St B) (h : B -> M St C) s :
  bind (bind m k) h s = bind m (fun a => bind (k a) h) s.
Proof.
  unfold bind.
  destruct (m s) as [a s1 t1|s1 t1|s1 t1]; try reflexivity.
  destruct (k a s1) as [b s2 t2|s2 t2|s2 t2]; simpl; try reflexivity.
  rewrite after_after; reflexivity.
Qed.

Lemma bind_ext {A B} (m : M St A) (k k' : A -> M St B) s :
  (forall a s1, k a s1 = k' a s1) -> bind m k s = bind m k' s.
Proof.
  intros H; unfold bind.
  destruct (m s) as [a s1 t1|s1 t1|s1 t1]; try reflexivity.
  rewrite H; reflexivity.
Qed.

(** One more turn of the core's loop runs the body after the earlier turns. *)
Lemma iterate_S_last (n : nat) (body : M St unit) (s : St) :
  iterate (S n) body s = bind (iterate n body) (fun _ => body) s.
Proof.
  revert s; induction n as [|n IH]; intros s.
  - simpl. unfold bind, ret. rewrite after_nil.
    destruct (body s) as [[] s1 t1|s1 t1|s1 t1]; simpl;
      rewrite ?app_nil_r; reflexivity.
  - transitivity (bind body (fun _ => bind (iterate n body) (fun _ => body)) s).
    + change (iterate (S (S n)) body s)
        with (bind body (fun _ => iterate (S n) body) s).
      apply bind_ext; intros _ s1; apply IH.
    + rewrite <- bind_assoc. reflexivity.
Qed.

End Monad.

(* ================================================================== *)
(** ** Traces *)
(* ================================================================== *)

Lemma count_app (p : event -> bool) (t1 t2 : list event) :
  count p (t1 ++ t2) = (count p t1 + count p t2)%nat.
Proof. unfold count. rewrite List.filter_app, List.length_app. reflexivity. Qed.

Lemma alc_targets_app (t1 t2 : list event) :
  alc_targets (t1 ++ t2) = alc_targets t1 ++ alc_targets t2.
Proof.
  induction t1 as [|ev t1 IH]; [reflexivity|].
  destruct ev; simpl; try exact IH.
  destruct c as [name [|[v|src] [|a l]]]; simpl; try exact IH.
  destruct (String.eqb name "setAlcTarget"); simpl; rewrite IH; reflexivity.
Qed.

Lemma alc_targets_reading_events (n : nat) : alc_targets (reading_events n) = [].
Proof. induction n as [|n IH]; simpl; [reflexivity | exact IH]. Qed.

Lemma count_calls_reading_events (p : string) (n : nat) :
  count (calls p) (reading_events n) = 0%nat.
Proof. induction n as [|n IH]; [reflexivity | exact IH]. Qed.

(* ================================================================== *)
(** ** 32-bit arithmetic of the ALC example *)
(* ================================================================== *)

Lemma wrap32_small (z : Z) : - 2 ^ 31 <= z < 2 ^ 31 -> wrap32 z = z.
Proof. intros H. unfold wrap32. rewrite Z.mod_small; lia. Qed.

Lemma sum_reads_bounds (adc : nat -> Z) (n : nat) :
  (forall k, 0 <= adc k <= 4095) ->
  forall r, 0 <= sum_reads adc r n <= 4095 * Z.of_nat n.
Proof.
  intros H. induction n as [|n IH]; intros r.
  - simpl; lia.
  - cbn [sum_reads]. specialize (IH (S r)). specialize (H r). lia.
Qed.

(** Within the ADC's range the accumulator never wraps. *)
Lemma accumulate_sum (adc : nat -> Z) (n : nat) :
  (forall k, 0 <= adc k <= 4095) ->
  forall u r,
    0 <= u -> u + 4095 * Z.of_nat n < 2 ^ 31 ->
    accumulate adc n u r = u + sum_reads adc r n.
Proof.
  intros H. induction n as [|n IH]; intros u r Hu Hn.
  - simpl; lia.
  - cbn [accumulate sum_reads]. specialize (H r).
    rewrite wrap32_small by lia.
    rewrite IH by lia. lia.
Qed.

(** [map(x, 0, 4096, 15, 0)] on every value the accumulator can hold. *)
Lemma map_pot_range (u : Z) :
  0 <= u <= 4111 -> 0 <= wrap32 (map u 0 4096 15 0) <= 15.
Proof.
  intros H. unfold map.
  rewrite (wrap32_small (u - 0)) by lia.
  rewrite (wrap32_small (0 - 15)) by lia.
  rewrite (wrap32_small (4096 - 0)) by lia.
  rewrite (wrap32_small ((u - 0) * (0 - 15))) by lia.
  replace ((u - 0) * (0 - 15)) with (- (15 * u)) by lia.
  replace (4096 - 0) with 4096 by lia.
  rewrite Z.quot_opp_l by lia.
  rewrite Z.quot_div_nonneg by lia.
  assert (0 <= 15 * u / 4096 <= 15).
  { split; [apply Z.div_pos; lia|].
    apply Z.lt_succ_r. apply Z.div_lt_upper_bound; lia. }
  rewrite (wrap32_small (- (15 * u / 4096) + 15)) by lia.
  rewrite wrap32_small by lia. lia.
Qed.

(* ================================================================== *)
(** ** Example 12: what [setup] and [loop] do *)
(* ================================================================== *)

Module AlcFacts.
Import AlcExample AlcNotions.

Lemma alc_codec_setup_run (s : state) :
  codec_setup s = Done tt s (events_of (codec_setup initial)).
Proof. vm_compute. reflexivity. Qed.

Lemma alc_setup_refused (e : env) (fuel : nat) (s : state) :
  codec_responds e = false -> setup e fuel s = Spinning s refused.
Proof.
  intros H.
  cbv [setup bind Serial_begin Serial_println Wire_begin codec_begin call after app].
  rewrite H. cbv [Bool.eqb].
  rewrite while_1_empty_body. reflexivity.
Qed.

Lemma alc_setup_connected (e : env) (fuel : nat) (s : state) :
  codec_responds e = true ->
  setup e fuel s = Done tt s (greeted ++ events_of (codec_setup initial)).
Proof.
  intros H.
  cbv [setup bind Serial_begin Serial_println Wire_begin codec_begin call after
       app ret].
  rewrite H. cbv [Bool.eqb].
  rewrite alc_codec_setup_run. reflexivity.
Qed.

(** The averaging [for] loop, turn by turn. *)
Lemma for_upto_take_reading (e : env) (n : nat) :
  forall (i : Z) (s : state),
    for_upto n i (take_reading e) s =
    Done tt
      {| userInputA0 := accumulate (adc e) n (userInputA0 s) (adc_reads s);
         adc_reads := (adc_reads s + n)%nat |}
      (reading_events n).
Proof.
  induction n as [|n IH]; intros i s.
  - simpl. unfold ret. rewrite Nat.add_0_r. destruct s; reflexivity.
  - change (for_upto (S n) i (take_reading e) s)
      with (bind (take_reading e i) (fun _ => for_upto n (i + 1) (take_reading e)) s).
    unfold bind at 1.
    replace (take_reading e i s)
      with (@Done state unit tt
              {| userInputA0 := wrap32 (userInputA0 s + adc e (adc_reads s));
                 adc_reads := S (adc_reads s) |}
              [AnalogRead "A0"; Delay 1]) by reflexivity.
    rewrite IH. simpl. rewrite Nat.add_succ_r. reflexivity.
Qed.

Lemma alc_loop_run (e : env) (s : state) :
  loop e s = Done tt (next e s) (loop_events (target e s)).
Proof.
  unfold loop, for_lt.
  change (Z.to_nat (250 - 0)) with 250%nat.
  unfold bind at 1. rewrite for_upto_take_reading.
  unfold loop_events, target, next, averaged.
  generalize (accumulate (adc e) 250 (userInputA0 s) (adc_reads s)).
  generalize (reading_events 250) (adc_reads s + 250)%nat.
  intros t r u.
  cbv [bind modify gets call after Serial_print Serial_println_int codec delay
       set_userInputA0 userInputA0 adc_reads].
  cbn [app]. reflexivity.
Qed.

Lemma events_of_loop (e : env) (s : state) :
  events_of (loop e s) = loop_events (target e s).
Proof. rewrite alc_loop_run; reflexivity. Qed.

Lemma state_of_loop (e : env) (s : state) : state_of (loop e s) = next e s.
Proof. rewrite alc_loop_run; reflexivity. Qed.

Lemma returned_loop (e : env) (s : state) : returned (loop e s) = true.
Proof. rewrite alc_loop_run; reflexivity. Qed.

Lemma alc_iterate_loop_run (e : env) (n : nat) :
  forall s, iterate n (loop e) s = Done tt (turns_state e n s) (turns_events e n s).
Proof.
  induction n as [|n IH]; intros s; [reflexivity|].
  cbn [iterate turns_state turns_events].
  rewrite (bind_Done _ _ _ _ _ _ (alc_loop_run e s)), IH. reflexivity.
Qed.

Lemma alc_sketch_refused (e : env) (fuel n : nat) :
  codec_responds e = false -> sketch e fuel n = Spinning initial refused.
Proof.
  intros H. unfold sketch.
  apply bind_Spinning, alc_setup_refused, H.
Qed.

Lemma alc_sketch_connected (e : env) (fuel n : nat) :
  codec_responds e = true ->
  sketch e fuel n =
  Done tt (turns_state e n initial)
    ((greeted ++ events_of (codec_setup initial)) ++ turns_events e n initial).
Proof.
  intros H. unfold sketch.
  rewrite (bind_Done _ _ _ _ _ _ (alc_setup_connected e fuel initial H)).
  rewrite alc_iterate_loop_run. reflexivity.
Qed.

(** The average one turn leaves, when the accumulator starts in bounds. *)
Lemma averaged_bounded (e : env) (s : state) :
  adc_12bit e -> bounded s ->
  averaged e s = Z.quot (userInputA0 s + sum_reads (adc e) (adc_reads s) 250) 250
  /\ 0 <= averaged e s <= 4111.
Proof.
  intros He Hs. unfold averaged, bounded in *.
  pose proof (sum_reads_bounds (adc e) 250 He (adc_reads s)) as Hsum.
  rewrite accumulate_sum by (auto; lia).
  split; [reflexivity|].
  rewrite Z.quot_div_nonneg by lia.
  change (Z.of_nat 250) with 250 in Hsum.
  split; [apply Z.div_pos; lia|].
  apply Z.lt_succ_r, Z.div_lt_upper_bound; lia.
Qed.

Lemma turns_state_bounded (e : env) (n : nat) :
  adc_12bit e -> forall s, bounded s -> bounded (turns_state e n s).
Proof.
  intros He. induction n as [|n IH]; intros s Hs; [exact Hs|].
  cbn [turns_state]. apply IH.
  exact (proj2 (averaged_bounded e s He Hs)).
Qed.

Lemma alc_targets_loop_events (v : Z) : alc_targets (loop_events v) = [v].
Proof.
  unfold loop_events. rewrite alc_targets_app, alc_targets_reading_events.
  reflexivity.
Qed.

Lemma alc_targets_turns (e : env) (n : nat) :
  adc_12bit e ->
  forall s, bounded s ->
    Forall (fun v => 0 <= v <= 15) (alc_targets (turns_events e n s))
    /\ List.length (alc_targets (turns_events e n s)) = n.
Proof.
  intros He. induction n as [|n IH]; intros s Hs.
  - split; [constructor | reflexivity].
  - cbn [turns_events]. rewrite alc_targets_app, alc_targets_loop_events.
    destruct (averaged_bounded e s He Hs) as [_ Hb].
    destruct (IH (next e s) Hb) as [IH1 IH2].
    split.
    + constructor; [|exact IH1]. apply map_pot_range, Hb.
    + simpl. rewrite IH2. reflexivity.
Qed.

Lemma count_calls_loop_events (p : string) (v : Z) :
  count (calls p) (loop_events v) = if String.eqb "setAlcTarget" p then 1%nat else 0%nat.
Proof.
  unfold loop_events. rewrite count_app, count_calls_reading_events.
  unfold count. cbn [List.filter calls method].
  destruct (String.eqb "setAlcTarget" p); reflexivity.
Qed.

Lemma count_calls_turns (p : string) (e : env) (n : nat) :
  forall s,
    count (calls p) (turns_events e n s)
    = if String.eqb "setAlcTarget" p then n else 0%nat.
Proof.
  induction n as [|n IH]; intros s.
  - destruct (String.eqb "setAlcTarget" p); reflexivity.
  - cbn [turns_events]. rewrite count_app, count_calls_loop_events, IH.
    destruct (String.eqb "setAlcTarget" p); reflexivity.
Qed.

End AlcFacts.

(* ================================================================== *)
(** ** Example 12: the claims *)
(* ================================================================== *)

Module AlcClaims.
Import AlcExample AlcNotions AlcFacts.

(** C1: the target passed to [codec.setAlcTarget] in a turn of [loop] would
    be the mapped mean of that turn's 250 readings.  With the potentiometer
    fully up the first turn passes 1, which is the mapped mean, but the
    second turn passes 0 although its readings have the same mean: the
    accumulator still holds the first turn's average when the second turn
    starts adding. *)
Theorem second_target_is_not_the_mean :
  alc_targets (events_of (sketch full_scale 0 2)) = [1; 0]
  /\ mean_alcTarget (adc full_scale) 0 = 1
  /\ mean_alcTarget (adc full_scale) 1 = 1
  /\ userInputA0 (state_of (sketch full_scale 0 1)) = 4095
  /\ userInputA0 (state_of (sketch full_scale 0 2)) = 4111.
Proof. vm_compute. repeat split; reflexivity. Qed.

(** C5, as stated: every ALC parameter is written exactly once.  It fails
    after a single turn of [loop], which writes the target again. *)
Lemma alc_target_written_again :
  ~ alc_written_once (events_of (sketch grounded 0 1)).
Proof.
  intros H. specialize (H "setAlcTarget" (or_introl eq_refl)).
  vm_compute in H. discriminate H.
Qed.

(** C5, amended: [codec_setup] writes each ALC parameter exactly once;
    attack, decay, hold, minimum and maximum gain are never written again,
    while every turn of [loop] writes the target once more. *)
Theorem alc_parameter_writes (e : env) (fuel n : nat) :
  codec_responds e = true ->
  alc_written_once (events_of (codec_setup initial))
  /\ (forall p, In p alc_parameters ->
        count (calls p) (events_of (sketch e fuel n))
        = if String.eqb "setAlcTarget" p then S n else 1%nat)
  /\ (forall p s, In p alc_parameters ->
        count (calls p) (events_of (iterate n (loop e) s))
        = if String.eqb "setAlcTarget" p then n else 0%nat).
Proof.
  intros H. split; [|split].
  - intros p Hp. unfold alc_parameters in Hp. simpl in Hp.
    repeat (destruct Hp as [<-|Hp]; [vm_compute; reflexivity|]).
    contradiction.
  - intros p Hp. rewrite (alc_sketch_connected e fuel n H).
    cbn [events_of]. rewrite !count_app, count_calls_turns.
    unfold alc_parameters in Hp. simpl in Hp.
    repeat (destruct Hp as [<-|Hp]; [reflexivity|]).
    contradiction.
  - intros p s _. rewrite alc_iterate_loop_run. cbn [events_of].
    apply count_calls_turns.
Qed.

Lemma alc_parameter_writes_witness :
  codec_responds grounded = true
  /\ alc_written_once (events_of (codec_setup initial))
  /\ (forall p, In p alc_parameters ->
        count (calls p) (events_of (sketch grounded 0 2))
        = if String.eqb "setAlcTarget" p then 3%nat else 1%nat)
  /\ (forall p s, In p alc_parameters ->
        count (calls p) (events_of (iterate 2 (loop grounded) s))
        = if String.eqb "setAlcTarget" p then 2%nat else 0%nat).
Proof.
  split; [reflexivity|].
  apply (alc_parameter_writes grounded 0 2). reflexivity.
Defined.

(** C6: whatever the 12-bit ADC reads and however many turns [loop] takes,
    every target computed by [map(userInputA0, 0, 4096, 15, 0)] and passed
    to [codec.setAlcTarget] lies between 0 and 15; a responding codec is
    passed one such target per turn. *)
Theorem alcTarget_in_range (e : env) (fuel n : nat) :
  adc_12bit e ->
  Forall (fun v => 0 <= v <= 15) (alc_targets (events_of (sketch e fuel n)))
  /\ (codec_responds e = true ->
      List.length (alc_targets (events_of (sketch e fuel n))) = n)
  /\ (forall s,
        alc_targets (events_of (loop e s))
        = [wrap32 (map (userInputA0 (state_of (loop e s))) 0 4096 15 0)]).
Proof.
  intros He.
  assert (Hb : bounded initial) by (unfold bounded; simpl; lia).
  destruct (alc_targets_turns e n He initial Hb) as [Hall Hlen].
  split; [|split].
  - destruct (codec_responds e) eqn:Hr.
    + rewrite (alc_sketch_connected e fuel n Hr). cbn [events_of].
      rewrite alc_targets_app.
      replace (alc_targets (greeted ++ events_of (codec_setup initial)))
        with (@nil Z) by (vm_compute; reflexivity).
      exact Hall.
    + rewrite (alc_sketch_refused e fuel n Hr). constructor.
  - intros Hr. rewrite (alc_sketch_connected e fuel n Hr). cbn [events_of].
    rewrite alc_targets_app.
    replace (alc_targets (greeted ++ events_of (codec_setup initial)))
      with (@nil Z) by (vm_compute; reflexivity).
    exact Hlen.
  - intros s. rewrite events_of_loop, state_of_loop, alc_targets_loop_events.
    unfold target, next, userInputA0. reflexivity.
Qed.

Lemma alcTarget_in_range_witness :
  adc_12bit full_scale
  /\ Forall (fun v => 0 <= v <= 15)
       (alc_targets (events_of (sketch full_scale 0 3)))
  /\ (codec_responds full_scale = true ->
      List.length (alc_targets (events_of (sketch full_scale 0 3))) = 3%nat)
  /\ (forall s,
        alc_targets (events_of (loop full_scale s))
        = [wrap32 (map (userInputA0 (state_of (loop full_scale s))) 0 4096 15 0)]).
Proof.
  split; [intros k; simpl; lia|].
  apply (alcTarget_in_range full_scale 0 3). intros k; simpl; lia.
Defined.

(** C10: [userInputA0] starts at 0 and no turn of [loop] resets it: a turn
    leaves (previous value + sum of its 250 readings) / 250.  With a 12-bit
    ADC it stays between 0 and 4111 after every turn. *)
Theorem userInputA0_invariant (e : env) (fuel n : nat) :
  adc_12bit e ->
  userInputA0 initial = 0
  /\ 0 <= userInputA0 (state_of (sketch e fuel n)) <= 4111
  /\ (forall s, 0 <= userInputA0 s <= 4111 ->
        returned (loop e s) = true
        /\ userInputA0 (state_of (loop e s))
           = Z.quot (userInputA0 s + sum_reads (adc e) (adc_reads s) 250) 250
        /\ 0 <= userInputA0 (state_of (loop e s)) <= 4111).
Proof.
  intros He.
  assert (Hb : bounded initial) by (unfold bounded; simpl; lia).
  split; [reflexivity|split].
  - destruct (codec_responds e) eqn:Hr.
    + rewrite (alc_sketch_connected e fuel n Hr). cbn [state_of].
      exact (turns_state_bounded e n He initial Hb).
    + rewrite (alc_sketch_refused e fuel n Hr). exact Hb.
  - intros s Hs. rewrite returned_loop, state_of_loop.
    destruct (averaged_bounded e s He Hs) as [Heq Hrange].
    split; [reflexivity|]. split; [exact Heq | exact Hrange].
Qed.

Lemma userInputA0_invariant_witness :
  adc_12bit full_scale
  /\ userInputA0 initial = 0
  /\ 0 <= userInputA0 (state_of (sketch full_scale 0 2)) <= 4111
  /\ (forall s, 0 <= userInputA0 s <= 4111 ->
        returned (loop full_scale s) = true
        /\ userInputA0 (state_of (loop full_scale s))
           = Z.quot (userInputA0 s
                     + sum_reads (adc full_scale) (adc_reads s) 250) 250
        /\ 0 <= userInputA0 (state_of (loop full_scale s)) <= 4111).
Proof.
  split; [intros k; simpl; lia|].
  apply (userInputA0_invariant full_scale 0 2). intros k; simpl; lia.
Defined.

End AlcClaims.

(* ================================================================== *)
(** ** Example 8: what [setup] and [loop] do *)
(* ================================================================== *)

Module PassFacts.
Import Passthrough PassNotions.

Lemma firstn_length_app {A} (l l' : list A) :
  List.firstn (List.length l) (l ++ l') = l.
Proof. induction l as [|a l IH]; simpl; [reflexivity | rewrite IH; reflexivity]. Qed.

Lemma incoming_length (e : env) (s : state) :
  Z.of_nat (List.length (incoming e s)) <= bufferLen.
Proof.
  unfold incoming.
  pose proof (List.firstn_le_length (Z.to_nat bufferLen) (rx_data (rx e (reads s)))).
  unfold bufferLen in *. lia.
Qed.

Lemma received_length (got : list byte) (s : state) :
  (List.length got <= List.length (sBuffer s))%nat ->
  List.length (sBuffer (received got s)) = List.length (sBuffer s).
Proof.
  intros H. unfold received; cbn [sBuffer].
  rewrite List.length_app, List.length_skipn. lia.
Qed.

Lemma received_allocated (e : env) (s : state) :
  allocated s -> allocated (received (incoming e s) s).
Proof.
  unfold allocated. intros H. rewrite received_length; [exact H|].
  pose proof (incoming_length e s) as Hi.
  unfold sizeof_sBuffer, bufferLen, sizeof_int16_t in *. lia.
Qed.

Lemma next_allocated (e : env) (s : state) :
  allocated s -> allocated (next e s).
Proof.
  intros H. unfold next.
  destruct (read_ok e s); [|apply received_allocated, H].
  exact (received_allocated e s H).
Qed.

Lemma i2s_read_run (e : env) (s : state) :
  allocated s ->
  i2s_read e I2S_PORT bufferLen s
  = Done (rx_err (rx e (reads s)), Z.of_nat (List.length (incoming e s)))
         (received (incoming e s) s)
         [I2sRead I2S_PORT bufferLen].
Proof.
  unfold allocated, i2s_read. intros H. rewrite H. reflexivity.
Qed.

Lemma i2s_write_run (e : env) (s : state) (n : Z) :
  0 <= n <= Z.of_nat (List.length (sBuffer s)) ->
  i2s_write e I2S_PORT n s
  = Done (tx_err (tx e (writes s)), tx_written (tx e (writes s)))
         (sent s)
         [I2sWrite I2S_PORT n (List.firstn (Z.to_nat n) (sBuffer s))].
Proof.
  intros H. unfold i2s_write.
  destruct (Z.ltb_spec (Z.of_nat (List.length (sBuffer s))) n); [lia|].
  destruct (Z.ltb_spec n 0); [lia|].
  reflexivity.
Qed.

(** The bytes handed to [i2s_write] are the bytes [i2s_read] just stored. *)
Lemma sent_bytes (got : list byte) (s : state) :
  List.firstn (Z.to_nat (Z.of_nat (List.length got))) (sBuffer (received got s)) = got.
Proof.
  rewrite Nat2Z.id. unfold received; cbn [sBuffer]. apply firstn_length_app.
Qed.

Lemma pass_loop_run (e : env) (s : state) :
  allocated s -> loop e s = Done tt (next e s) (loop_events e s).
Proof.
  intros H. unfold loop.
  rewrite (bind_Done _ _ _ _ _ _ (i2s_read_run e s H)).
  unfold next, loop_events, read_ok.
  destruct (rx_err (rx e (reads s)) =? ESP_OK).
  - assert (Hn : 0 <= Z.of_nat (List.length (incoming e s))
                 <= Z.of_nat (List.length (sBuffer (received (incoming e s) s)))).
    { pose proof (received_allocated e s H) as Ha.
      pose proof (incoming_length e s) as Hi.
      unfold allocated, sizeof_sBuffer, bufferLen, sizeof_int16_t in *. lia. }
    rewrite (bind_Done _ _ _ _ _ _ (i2s_write_run e _ _ Hn)).
    rewrite sent_bytes. reflexivity.
  - reflexivity.
Qed.

Lemma pass_iterate_loop_run (e : env) (n : nat) :
  forall s, allocated s ->
    iterate n (loop e) s = Done tt (turns_state e n s) (turns_events e n s).
Proof.
  induction n as [|n IH]; intros s H; [reflexivity|].
  cbn [iterate turns_state turns_events].
  rewrite (bind_Done _ _ _ _ _ _ (pass_loop_run e s H)).
  rewrite (IH _ (next_allocated e s H)). reflexivity.
Qed.

Lemma pass_codec_setup_run (s : state) :
  codec_setup s = Done tt s (events_of (codec_setup initial)).
Proof. vm_compute. reflexivity. Qed.

Lemma pass_setup_refused (e : env) (fuel : nat) (s : state) :
  codec_responds e = false -> setup e fuel s = Spinning s refused.
Proof.
  intros H.
  cbv [setup bind Serial_begin Serial_println Wire_begin codec_begin call after app].
  rewrite H. cbv [Bool.eqb].
  rewrite while_1_empty_body. reflexivity.
Qed.

Lemma pass_setup_connected (e : env) (fuel : nat) (s : state) :
  codec_responds e = true ->
  setup e fuel s
  = Done tt (configured s)
      (greeted ++ events_of (codec_setup initial) ++ i2s_setup_events).
Proof.
  intros H.
  cbv [setup bind Serial_begin Serial_println Wire_begin codec_begin call after
       app ret].
  rewrite H. cbv [Bool.eqb].
  rewrite pass_codec_setup_run. reflexivity.
Qed.

Lemma allocated_initial : allocated initial.
Proof. reflexivity. Qed.

Lemma pass_sketch_refused (e : env) (fuel n : nat) :
  codec_responds e = false -> sketch e fuel n = Spinning initial refused.
Proof.
  intros H. unfold sketch.
  apply bind_Spinning, pass_setup_refused, H.
Qed.

Lemma pass_sketch_connected (e : env) (fuel n : nat) :
  codec_responds e = true ->
  sketch e fuel n =
  Done tt (turns_state e n (configured initial))
    ((greeted ++ events_of (codec_setup initial) ++ i2s_setup_events)
     ++ turns_events e n (configured initial)).
Proof.
  intros H. unfold sketch.
  rewrite (bind_Done _ _ _ _ _ _ (pass_setup_connected e fuel initial H)).
  rewrite pass_iterate_loop_run by reflexivity. reflexivity.
Qed.

End PassFacts.

(* ================================================================== *)
(** ** Example 8: the claims *)
(* ================================================================== *)

Module PassClaims.
Import Passthrough PassNotions PassFacts.

Lemma configuration_next (e : env) (s : state) :
  configuration (next e s) = configuration s.
Proof. unfold next. destruct (read_ok e s); reflexivity. Qed.

Lemma configuration_turns (e : env) (n : nat) :
  forall s, configuration (turns_state e n s) = configuration s.
Proof.
  induction n as [|n IH]; intros s; [reflexivity|].
  cbn [turns_state]. rewrite IH. apply configuration_next.
Qed.

Lemma allocated_turns (e : env) (n : nat) :
  forall s, allocated s -> allocated (turns_state e n s).
Proof.
  induction n as [|n IH]; intros s H; [exact H|].
  cbn [turns_state]. apply IH, next_allocated, H.
Qed.

Lemma no_config_in_loop_events (e : env) (s : state) :
  List.filter is_config (loop_events e s) = [].
Proof. unfold loop_events. destruct (read_ok e s); reflexivity. Qed.

Lemma no_config_in_turns (e : env) (n : nat) :
  forall s, List.filter is_config (turns_events e n s) = [].
Proof.
  induction n as [|n IH]; intros s; [reflexivity|].
  cbn [turns_events]. rewrite List.filter_app, no_config_in_loop_events, IH.
  reflexivity.
Qed.

(** A turn of [loop] makes I2S transfers and nothing else. *)
Lemma filter_transfers (p : event -> bool) (e : env) (n : nat) :
  (forall port size, p (I2sRead port size) = false) ->
  (forall port size src, p (I2sWrite port size src) = false) ->
  forall s, List.filter p (turns_events e n s) = [].
Proof.
  intros Hr Hw. induction n as [|n IH]; intros s; [reflexivity|].
  cbn [turns_events]. rewrite List.filter_app, IH.
  unfold loop_events. cbn [List.filter]. rewrite Hr.
  destruct (read_ok e s); cbn [List.filter]; rewrite ?Hw; reflexivity.
Qed.

Lemma loop_events_within (e : env) (s : state) :
  Forall within_sBuffer (loop_events e s).
Proof.
  unfold loop_events. constructor.
  - unfold within_sBuffer, bufferLen. lia.
  - destruct (read_ok e s); constructor; [|constructor].
    pose proof (incoming_length e s). unfold within_sBuffer. lia.
Qed.

Lemma turns_events_within (e : env) (n : nat) :
  forall s, Forall within_sBuffer (turns_events e n s).
Proof.
  induction n as [|n IH]; intros s; [constructor|].
  cbn [turns_events]. apply Forall_app. split; [apply loop_events_within | apply IH].
Qed.

Lemma setup_events_within :
  Forall within_sBuffer
    (greeted ++ events_of (codec_setup initial) ++ i2s_setup_events).
Proof. vm_compute. repeat constructor. Qed.

(** C3, as stated: the return codes of [i2s_read] and [i2s_write] have no
    influence on what [loop] does.  Two peers that differ only in the code
    [i2s_read] returns make [loop] behave differently. *)
Lemma read_code_gates_the_write : ~ return_codes_ignored.
Proof.
  intros H.
  specialize (H (peer true 0 0) (peer true (-1) 0) initial allocated_initial
                (fun _ => eq_refl) (fun _ => eq_refl)).
  vm_compute in H. discriminate H.
Qed.

(** C3, amended: what [i2s_write] returns is discarded, and of what
    [i2s_read] returns only the test against [ESP_OK] matters: a turn of
    [loop] makes its one [i2s_write] exactly when the read returned
    [ESP_OK], and nothing else depends on either return code. *)
Theorem i2s_return_codes (e e' : env) (s : state) :
  allocated s ->
  rx_data (rx e (reads s)) = rx_data (rx e' (reads s)) ->
  (rx_err (rx e (reads s)) =? ESP_OK) = (rx_err (rx e' (reads s)) =? ESP_OK) ->
  loop e s = loop e' s
  /\ count is_i2s (events_of (loop e s)) =
     (if rx_err (rx e (reads s)) =? ESP_OK then 2%nat else 1%nat)
  /\ events_of (loop e s) =
     I2sRead I2S_PORT bufferLen ::
     (if rx_err (rx e (reads s)) =? ESP_OK
      then [I2sWrite I2S_PORT (Z.of_nat (List.length (incoming e s))) (incoming e s)]
      else []).
Proof.
  intros Ha Hd Hc.
  rewrite !pass_loop_run by exact Ha.
  split; [|split].
  - unfold next, loop_events, read_ok, incoming. rewrite Hd, Hc. reflexivity.
  - cbn [events_of]. unfold loop_events, read_ok.
    destruct (rx_err (rx e (reads s)) =? ESP_OK); reflexivity.
  - reflexivity.
Qed.

Lemma i2s_return_codes_witness :
  allocated initial
  /\ rx_data (rx (peer true (-1) 0) (reads initial))
     = rx_data (rx (peer true 259 263) (reads initial))
  /\ (rx_err (rx (peer true (-1) 0) (reads initial)) =? ESP_OK)
     = (rx_err (rx (peer true 259 263) (reads initial)) =? ESP_OK)
  /\ loop (peer true (-1) 0) initial = loop (peer true 259 263) initial
  /\ count is_i2s (events_of (loop (peer true (-1) 0) initial)) =
     (if rx_err (rx (peer true (-1) 0) (reads initial)) =? ESP_OK
      then 2%nat else 1%nat)
  /\ events_of (loop (peer true (-1) 0) initial) =
     I2sRead I2S_PORT bufferLen ::
     (if rx_err (rx (peer true (-1) 0) (reads initial)) =? ESP_OK
      then [I2sWrite I2S_PORT
              (Z.of_nat (List.length (incoming (peer true (-1) 0) initial)))
              (incoming (peer true (-1) 0) initial)]
      else []).
Proof.
  split; [reflexivity|]. split; [reflexivity|]. split; [reflexivity|].
  apply (i2s_return_codes (peer true (-1) 0) (peer true 259 263) initial);
    reflexivity.
Defined.

(** C4: a turn of [loop] whose [i2s_read] returns [ESP_OK] makes exactly one
    [i2s_write], from [sBuffer], of [bytesIn] bytes; the bytes written are
    the bytes the read has just stored, and [sBuffer] is not touched in
    between or afterwards. *)
Theorem passthrough_sends_what_it_received (e : env) (s : state) :
  allocated s ->
  rx_err (rx e (reads s)) = ESP_OK ->
  exists (bytesIn : Z) (s1 : state),
    i2s_read e I2S_PORT bufferLen s
      = Done (ESP_OK, bytesIn) s1 [I2sRead I2S_PORT bufferLen]
    /\ bytesIn = Z.of_nat (List.length (incoming e s))
    /\ List.firstn (Z.to_nat bytesIn) (sBuffer s1) = incoming e s
    /\ loop e s
       = Done tt (sent s1)
           [I2sRead I2S_PORT bufferLen;
            I2sWrite I2S_PORT bytesIn (List.firstn (Z.to_nat bytesIn) (sBuffer s1))]
    /\ sBuffer (sent s1) = sBuffer s1.
Proof.
  intros Ha Hok.
  exists (Z.of_nat (List.length (incoming e s))), (received (incoming e s) s).
  split; [|split; [|split; [|split]]].
  - rewrite (i2s_read_run e s Ha), Hok. reflexivity.
  - reflexivity.
  - apply sent_bytes.
  - rewrite (pass_loop_run e s Ha). unfold next, loop_events, read_ok.
    rewrite Hok, sent_bytes. reflexivity.
  - reflexivity.
Qed.

Lemma passthrough_sends_what_it_received_witness :
  allocated initial
  /\ rx_err (rx (peer true 0 0) (reads initial)) = ESP_OK
  /\ exists (bytesIn : Z) (s1 : state),
       i2s_read (peer true 0 0) I2S_PORT bufferLen initial
         = Done (ESP_OK, bytesIn) s1 [I2sRead I2S_PORT bufferLen]
       /\ bytesIn = Z.of_nat (List.length (incoming (peer true 0 0) initial))
       /\ List.firstn (Z.to_nat bytesIn) (sBuffer s1)
          = incoming (peer true 0 0) initial
       /\ loop (peer true 0 0) initial
          = Done tt (sent s1)
              [I2sRead I2S_PORT bufferLen;
               I2sWrite I2S_PORT bytesIn
                 (List.firstn (Z.to_nat bytesIn) (sBuffer s1))]
       /\ sBuffer (sent s1) = sBuffer s1.
Proof.
  split; [reflexivity|]. split; [reflexivity|].
  apply (passthrough_sends_what_it_received (peer true 0 0) initial);
    reflexivity.
Defined.

(** C7: [setup] returns having installed the I2S format once (master,
    44100 Hz, 16 bits per sample, right/left channel format) and having
    set the codec to 16-bit words; no turn of [loop] changes the driver's configuration or makes a
    configuring call, so after any number of turns the configuration is the
    one [setup] left. *)
Theorem configuration_fixed_at_setup (e : env) (fuel n : nat) :
  codec_responds e = true ->
  returned (sketch e fuel n) = true
  /\ (exists cfg,
     i2s_config (state_of (sketch e fuel n)) = Some cfg
     /\ In I2S_MODE_MASTER (mode cfg)
     /\ sample_rate cfg = 44100
     /\ bits_per_sample cfg = 16
     /\ channel_format cfg = I2S_CHANNEL_FMT_RIGHT_LEFT)
  /\ configuration (state_of (sketch e fuel n))
     = configuration (state_of (sketch e fuel 0))
  /\ List.filter is_config (events_of (sketch e fuel n))
     = List.filter is_config (events_of (sketch e fuel 0))
  /\ count (fun ev => match ev with I2sDriverInstall _ _ => true | _ => false end)
       (events_of (sketch e fuel n)) = 1%nat
  /\ count (calls "set_WL") (events_of (sketch e fuel n)) = 1%nat
  /\ (forall s, allocated s ->
        configuration (state_of (loop e s)) = configuration s
        /\ List.filter is_config (events_of (loop e s)) = []).
Proof.
  intros H.
  rewrite (pass_sketch_connected e fuel n H), (pass_sketch_connected e fuel 0 H).
  cbn [state_of events_of returned turns_state turns_events].
  split; [reflexivity|].
  split; [|split; [|split; [|split; [|split]]]].
  - exists installed_config.
    pose proof (configuration_turns e n (configured initial)) as Hc.
    unfold configuration in Hc. cbn [configured i2s_config] in Hc.
    split; [congruence|]. repeat split. simpl; auto.
  - apply configuration_turns.
  - rewrite !List.filter_app, no_config_in_turns. reflexivity.
  - rewrite count_app. unfold count at 2.
    rewrite filter_transfers by reflexivity. vm_compute. reflexivity.
  - rewrite count_app. unfold count at 2.
    rewrite filter_transfers by reflexivity. vm_compute. reflexivity.
  - intros s Hs. rewrite (pass_loop_run e s Hs). cbn [state_of events_of].
    split; [apply configuration_next | apply no_config_in_loop_events].
Qed.

Lemma configuration_fixed_at_setup_witness :
  codec_responds (peer true 0 0) = true
  /\ returned (sketch (peer true 0 0) 0 3) = true
  /\ (exists cfg,
        i2s_config (state_of (sketch (peer true 0 0) 0 3)) = Some cfg
        /\ In I2S_MODE_MASTER (mode cfg)
        /\ sample_rate cfg = 44100
        /\ bits_per_sample cfg = 16
        /\ channel_format cfg = I2S_CHANNEL_FMT_RIGHT_LEFT)
  /\ configuration (state_of (sketch (peer true 0 0) 0 3))
     = configuration (state_of (sketch (peer true 0 0) 0 0))
  /\ List.filter is_config (events_of (sketch (peer true 0 0) 0 3))
     = List.filter is_config (events_of (sketch (peer true 0 0) 0 0))
  /\ count (fun ev => match ev with I2sDriverInstall _ _ => true | _ => false end)
       (events_of (sketch (peer true 0 0) 0 3)) = 1%nat
  /\ count (calls "set_WL") (events_of (sketch (peer true 0 0) 0 3)) = 1%nat
  /\ (forall s, allocated s ->
        configuration (state_of (loop (peer true 0 0) s)) = configuration s
        /\ List.filter is_config (events_of (loop (peer true 0 0) s)) = []).
Proof.
  split; [reflexivity|].
  apply (configuration_fixed_at_setup (peer true 0 0) 0 3). reflexivity.
Defined.

(** C9: every [i2s_read] asks for [bufferLen] = 64 bytes and every
    [i2s_write] for at most the [bytesIn] <= 64 bytes just read, while
    [sBuffer] holds 64 two-byte elements, 128 bytes: no transfer leaves the
    object, the sketch never faults, and no turn moves more than half of
    [sBuffer]. *)
Theorem transfers_stay_inside_sBuffer (e : env) (fuel n : nat) :
  faulted (sketch e fuel n) = false
  /\ Forall within_sBuffer (events_of (sketch e fuel n))
  /\ Z.of_nat (List.length (sBuffer (state_of (sketch e fuel n)))) = sizeof_sBuffer
  /\ sizeof_sBuffer = 128
  /\ 2 * bufferLen = sizeof_sBuffer.
Proof.
  destruct (codec_responds e) eqn:H.
  - rewrite (pass_sketch_connected e fuel n H). cbn [faulted events_of state_of].
    split; [reflexivity|]. split; [|split; [|split; reflexivity]].
    + apply Forall_app. split; [apply setup_events_within | apply turns_events_within].
    + apply (allocated_turns e n (configured initial)). reflexivity.
  - rewrite (pass_sketch_refused e fuel n H). cbn [faulted events_of state_of].
    split; [reflexivity|]. split; [|split; [|split; reflexivity]].
    + repeat constructor.
    + reflexivity.
Qed.

End PassClaims.

(* ================================================================== *)
(** ** Both examples: [setup] *)
(* ================================================================== *)

(** C2: when [codec.begin()] returns false, [setup] prints the diagnostic
    line and stays in [while (1);] for good: however long the sketch is
    watched it has not returned, it has called [codec.begin()] once, and it
    has made no codec configuration call and no I2S call; [loop] never
    runs. *)
Theorem handshake_failure_halts
  (ea : AlcExample.env) (ep : Passthrough.env) (fuel n : nat) :
  AlcExample.codec_responds ea = false ->
  Passthrough.codec_responds ep = false ->
  AlcExample.sketch ea fuel n
  = Spinning AlcExample.initial
      [SerialBegin 115200;
       SerialPrintln "Example 12 - Automatic Level Control";
       WireBegin;
       CodecBegin;
       SerialPrintln "The device did not respond. Please check wiring."]
  /\ Passthrough.sketch ep fuel n
     = Spinning Passthrough.initial
         [SerialBegin 115200;
          SerialPrintln "Example 8 - I2S Passthough";
          WireBegin;
          CodecBegin;
          SerialPrintln "The device did not respond. Please check wiring."]
  /\ count is_codec_begin (events_of (AlcExample.sketch ea fuel n)) = 1%nat
  /\ count is_codec_method (events_of (AlcExample.sketch ea fuel n)) = 0%nat
  /\ count is_codec_begin (events_of (Passthrough.sketch ep fuel n)) = 1%nat
  /\ count is_codec_method (events_of (Passthrough.sketch ep fuel n)) = 0%nat
  /\ count is_i2s (events_of (Passthrough.sketch ep fuel n)) = 0%nat.
Proof.
  intros Ha Hp.
  rewrite (AlcFacts.alc_sketch_refused ea fuel n Ha).
  rewrite (PassFacts.pass_sketch_refused ep fuel n Hp).
  repeat split.
Qed.

Lemma handshake_failure_halts_witness :
  AlcExample.codec_responds unplugged = false
  /\ Passthrough.codec_responds (peer false 0 0) = false
  /\ AlcExample.sketch unplugged 7 3
     = Spinning AlcExample.initial
         [SerialBegin 115200;
          SerialPrintln "Example 12 - Automatic Level Control";
          WireBegin;
          CodecBegin;
          SerialPrintln "The device did not respond. Please check wiring."]
  /\ Passthrough.sketch (peer false 0 0) 7 3
     = Spinning Passthrough.initial
         [SerialBegin 115200;
          SerialPrintln "Example 8 - I2S Passthough";
          WireBegin;
          CodecBegin;
          SerialPrintln "The device did not respond. Please check wiring."]
  /\ count is_codec_begin (events_of (AlcExample.sketch unplugged 7 3)) = 1%nat
  /\ count is_codec_method (events_of (AlcExample.sketch unplugged 7 3)) = 0%nat
  /\ count is_codec_begin (events_of (Passthrough.sketch (peer false 0 0) 7 3)) = 1%nat
  /\ count is_codec_method (events_of (Passthrough.sketch (peer false 0 0) 7 3)) = 0%nat
  /\ count is_i2s (events_of (Passthrough.sketch (peer false 0 0) 7 3)) = 0%nat.
Proof.
  split; [reflexivity|]. split; [reflexivity|].
  apply (handshake_failure_halts unplugged (peer false 0 0) 7 3); reflexivity.
Defined.

(** C8: in both sketches [setup] opens the I2C bus with [Wire.begin()],
    then makes the handshake [codec.begin()], and makes the calls of
    [codec_setup], in their order, only after that and only when the
    handshake succeeded; before the handshake nothing is sent to the
    codec, and [setup] returns exactly when the handshake succeeded. *)
Theorem setup_order
  (ea : AlcExample.env) (ep : Passthrough.env) (fuel : nat)
  (sa : AlcExample.state) (sp : Passthrough.state) :
  events_of (AlcExample.setup ea fuel sa)
  = [SerialBegin 115200;
     SerialPrintln "Example 12 - Automatic Level Control";
     WireBegin;
     CodecBegin]
    ++ (if AlcExample.codec_responds ea
        then SerialPrintln "Device is connected properly."
             :: events_of (AlcExample.codec_setup sa)
        else [SerialPrintln "The device did not respond. Please check wiring."])
  /\ events_of (Passthrough.setup ep fuel sp)
     = [SerialBegin 115200;
        SerialPrintln "Example 8 - I2S Passthough";
        WireBegin;
        CodecBegin]
       ++ (if Passthrough.codec_responds ep
           then SerialPrintln "Device is connected properly."
                :: events_of (Passthrough.codec_setup sp)
                ++ PassNotions.i2s_setup_events
           else [SerialPrintln "The device did not respond. Please check wiring."])
  /\ returned (AlcExample.setup ea fuel sa) = AlcExample.codec_responds ea
  /\ returned (Passthrough.setup ep fuel sp) = Passthrough.codec_responds ep
  /\ count is_codec_method (events_of (AlcExample.codec_setup sa)) = 51%nat
  /\ count is_codec_method (events_of (Passthrough.codec_setup sp)) = 43%nat
  /\ List.filter on_i2c (events_of (AlcExample.setup ea fuel sa))
     = WireBegin :: CodecBegin
       :: (if AlcExample.codec_responds ea
           then List.filter on_i2c (events_of (AlcExample.codec_setup sa))
           else [])
  /\ List.filter on_i2c (events_of (Passthrough.setup ep fuel sp))
     = WireBegin :: CodecBegin
       :: (if Passthrough.codec_responds ep
           then List.filter on_i2c (events_of (Passthrough.codec_setup sp))
           else []).
Proof.
  rewrite (AlcFacts.alc_codec_setup_run sa), (PassFacts.pass_codec_setup_run sp).
  destruct (AlcExample.codec_responds ea) eqn:Ha;
    [rewrite (AlcFacts.alc_setup_connected ea fuel sa Ha)
    |rewrite (AlcFacts.alc_setup_refused ea fuel sa Ha)];
  (destruct (Passthrough.codec_responds ep) eqn:Hp;
    [rewrite (PassFacts.pass_setup_connected ep fuel sp Hp)
    |rewrite (PassFacts.pass_setup_refused ep fuel sp Hp)]);
  vm_compute; repeat split.
Qed.

(* ================================================================== *)
(** ** Example 12: further properties of [loop] and [codec_setup] *)
(* ================================================================== *)

Module AlcExtras.
Import AlcExample AlcNotions AlcMeasures AlcFacts.

Lemma printed_ints_app (t1 t2 : list event) :
  printed_ints (t1 ++ t2) = printed_ints t1 ++ printed_ints t2.
Proof.
  induction t1 as [|ev t1 IH]; [reflexivity|].
  destruct ev; simpl; rewrite IH; reflexivity.
Qed.

Lemma total_delay_app (t1 t2 : list event) :
  total_delay (t1 ++ t2) = total_delay t1 + total_delay t2.
Proof.
  induction t1 as [|ev t1 IH]; [reflexivity|].
  destruct ev; cbn [app total_delay]; rewrite IH; lia.
Qed.

Lemma printed_ints_reading_events (n : nat) : printed_ints (reading_events n) = [].
Proof. induction n as [|n IH]; [reflexivity | exact IH]. Qed.

Lemma total_delay_reading_events (n : nat) :
  total_delay (reading_events n) = Z.of_nat n.
Proof.
  induction n as [|n IH]; [reflexivity|].
  cbn [reading_events total_delay]. rewrite IH. lia.
Qed.

Lemma count_analogRead_reading_events (n : nat) :
  count is_analogRead (reading_events n) = n.
Proof.
  induction n as [|n IH]; [reflexivity|].
  unfold count in *. cbn [reading_events List.filter is_analogRead List.length].
  rewrite IH. reflexivity.
Qed.

Lemma turns_state_S_last (e : env) (n : nat) :
  forall s, turns_state e (S n) s = next e (turns_state e n s).
Proof.
  induction n as [|n IH]; intros s; [reflexivity|].
  change (turns_state e (S (S n)) s) with (turns_state e (S n) (next e s)).
  rewrite IH. reflexivity.
Qed.

Lemma adc_reads_turns (e : env) (n : nat) :
  forall s, adc_reads (turns_state e n s) = (adc_reads s + 250 * n)%nat.
Proof.
  induction n as [|n IH]; intros s.
  - cbn [turns_state]. lia.
  - cbn [turns_state]. rewrite IH.
    change (adc_reads (next e s)) with (adc_reads s + 250)%nat. lia.
Qed.

Lemma state_of_sketch (e : env) (fuel n : nat) :
  codec_responds e = true -> state_of (sketch e fuel n) = turns_state e n initial.
Proof. intros H. rewrite (alc_sketch_connected e fuel n H). reflexivity. Qed.

Lemma setup_events_quiet :
  printed_ints (greeted ++ events_of (codec_setup initial)) = []
  /\ alc_targets (greeted ++ events_of (codec_setup initial)) = []
  /\ total_delay (greeted ++ events_of (codec_setup initial)) = 0
  /\ count is_analogRead (greeted ++ events_of (codec_setup initial)) = 0%nat.
Proof. vm_compute. repeat split. Qed.

(** The 32-bit sums of the averaging loop for readings below a bound [B]. *)
Lemma sum_reads_upto (adc : nat -> Z) (B : Z) (n : nat) :
  (forall k, 0 <= adc k <= B) ->
  forall r, 0 <= sum_reads adc r n <= B * Z.of_nat n.
Proof.
  intros H. induction n as [|n IH]; intros r.
  - simpl; lia.
  - cbn [sum_reads]. specialize (IH (S r)). specialize (H r).
    rewrite Nat2Z.inj_succ, Z.mul_succ_r. lia.
Qed.

Lemma accumulate_upto (adc : nat -> Z) (B : Z) (n : nat) :
  (forall k, 0 <= adc k <= B) ->
  forall u r,
    0 <= u -> u + B * Z.of_nat n < 2 ^ 31 ->
    accumulate adc n u r = u + sum_reads adc r n.
Proof.
  intros H. induction n as [|n IH]; intros u r Hu Hn.
  - simpl; lia.
  - cbn [accumulate sum_reads]. pose proof H as H0. specialize (H r).
    rewrite Nat2Z.inj_succ, Z.mul_succ_r in Hn.
    pose proof (sum_reads_upto adc B n) as Hs.
    assert (0 <= B * Z.of_nat n) by (specialize (Hs H0 r); lia).
    rewrite wrap32_small by lia.
    rewrite IH by lia. lia.
Qed.

(** [map(u, 0, 4096, 15, 0)] in closed form. *)
Lemma map_pot_closed (u : Z) :
  0 <= u <= 4111 -> map u 0 4096 15 0 = 15 - 15 * u / 4096.
Proof.
  intros H. unfold map.
  rewrite (wrap32_small (u - 0)) by lia.
  rewrite (wrap32_small (0 - 15)) by lia.
  rewrite (wrap32_small (4096 - 0)) by lia.
  rewrite (wrap32_small ((u - 0) * (0 - 15))) by lia.
  replace ((u - 0) * (0 - 15)) with (- (15 * u)) by lia.
  replace (4096 - 0) with 4096 by lia.
  rewrite Z.quot_opp_l by lia.
  rewrite Z.quot_div_nonneg by lia.
  assert (0 <= 15 * u / 4096 <= 15).
  { split; [apply Z.div_pos; lia|].
    apply Z.lt_succ_r. apply Z.div_lt_upper_bound; lia. }
  rewrite wrap32_small by lia. lia.
Qed.

Lemma target_closed (e : env) (s : state) :
  0 <= averaged e s <= 4111 ->
  target e s = 15 - 15 * averaged e s / 4096.
Proof.
  intros H. unfold target.
  pose proof (map_pot_range _ H) as Hr.
  rewrite map_pot_closed in * by exact H.
  assert (0 <= 15 * averaged e s / 4096 <= 15).
  { split; [apply Z.div_pos; lia|].
    apply Z.lt_succ_r. apply Z.div_lt_upper_bound; lia. }
  apply wrap32_small. lia.
Qed.

(** One turn against the mean of its own readings. *)
Lemma averaged_near_mean (e : env) (s : state) :
  adc_12bit e -> bounded s ->
  let m := Z.quot (sum_reads (adc e) (adc_reads s) 250) 250 in
  0 <= m <= 4095 /\ m <= averaged e s <= m + 17.
Proof.
  intros He Hs m. subst m.
  destruct (averaged_bounded e s He Hs) as [-> _].
  pose proof (sum_reads_bounds (adc e) 250 He (adc_reads s)) as Hsum.
  change (Z.of_nat 250) with 250 in Hsum.
  unfold bounded in Hs.
  rewrite !Z.quot_div_nonneg by lia.
  generalize dependent (sum_reads (adc e) (adc_reads s) 250). intros t Ht.
  generalize dependent (userInputA0 s). intros u Hu.
  pose proof (Z.div_mod t 250 ltac:(lia)).
  pose proof (Z.mod_pos_bound t 250 ltac:(lia)).
  pose proof (Z.div_mod (u + t) 250 ltac:(lia)).
  pose proof (Z.mod_pos_bound (u + t) 250 ltac:(lia)).
  lia.
Qed.

(** The value [userInputA0] holds after a turn of [loop] is never below the
    mean of that turn's 250 readings and exceeds it by at most 17 counts:
    the average left by the turn before is added to the sum, and it
    contributes at most 4111 / 250 plus one for rounding. *)
Theorem average_bias (e : env) (fuel n : nat) :
  adc_12bit e ->
  codec_responds e = true ->
  mean_of_turn (adc e) n <= userInputA0 (state_of (sketch e fuel (S n)))
  /\ userInputA0 (state_of (sketch e fuel (S n))) <= mean_of_turn (adc e) n + 17.
Proof.
  intros He Hr.
  rewrite (state_of_sketch e fuel (S n) Hr), turns_state_S_last.
  change (userInputA0 (next e (turns_state e n initial)))
    with (averaged e (turns_state e n initial)).
  assert (Hb : bounded (turns_state e n initial)).
  { apply turns_state_bounded; [exact He|]. unfold bounded; simpl; lia. }
  pose proof (averaged_near_mean e _ He Hb) as Hm. cbv zeta in Hm.
  rewrite adc_reads_turns in Hm.
  change (adc_reads initial + 250 * n)%nat with (250 * n)%nat in Hm.
  unfold mean_of_turn. lia.
Qed.

Lemma average_bias_witness :
  adc_12bit full_scale
  /\ codec_responds full_scale = true
  /\ mean_of_turn (adc full_scale) 1 <= userInputA0 (state_of (sketch full_scale 0 2))
  /\ userInputA0 (state_of (sketch full_scale 0 2)) <= mean_of_turn (adc full_scale) 1 + 17.
Proof.
  split; [intros k; simpl; lia|]. split; [reflexivity|].
  apply (average_bias full_scale 0 1); [intros k; simpl; lia | reflexivity].
Defined.

Lemma targets_from (e : env) (n : nat) :
  adc_12bit e ->
  forall s k,
    bounded s -> adc_reads s = (250 * k)%nat ->
    Forall2 (fun v m => m - 1 <= v <= m)
      (alc_targets (turns_events e n s))
      (List.map (mean_alcTarget (adc e)) (List.seq k n)).
Proof.
  intros He. induction n as [|n IH]; intros s k Hs Hk; [constructor|].
  cbn [turns_events List.seq List.map].
  rewrite alc_targets_app, alc_targets_loop_events. cbn [app].
  destruct (averaged_near_mean e s He Hs) as [Hm Ha]. cbv zeta in Hm, Ha.
  destruct (averaged_bounded e s He Hs) as [_ Hb].
  constructor.
  - rewrite (target_closed e s Hb). unfold mean_alcTarget. rewrite <- Hk.
    rewrite map_pot_closed by lia.
    generalize dependent (averaged e s). intros a Ha Hb.
    generalize dependent (sum_reads (adc e) (adc_reads s) 250 ÷ 250). intros m Hm Ha.
    pose proof (Z.div_mod (15 * a) 4096 ltac:(lia)).
    pose proof (Z.mod_pos_bound (15 * a) 4096 ltac:(lia)).
    pose proof (Z.div_mod (15 * m) 4096 ltac:(lia)).
    pose proof (Z.mod_pos_bound (15 * m) 4096 ltac:(lia)).
    lia.
  - apply IH; [exact Hb|].
    change (adc_reads (next e s)) with (adc_reads s + 250)%nat. lia.
Qed.

(** The target passed to [codec.setAlcTarget] in a turn of [loop] is the
    mapped mean of that turn's readings or one step below it, never above
    and never further off. *)
Theorem targets_within_one_step_of_mean (e : env) (fuel n : nat) :
  adc_12bit e ->
  codec_responds e = true ->
  Forall2 (fun v m => m - 1 <= v <= m)
    (alc_targets (events_of (sketch e fuel n)))
    (List.map (mean_alcTarget (adc e)) (List.seq 0 n)).
Proof.
  intros He Hr. rewrite (alc_sketch_connected e fuel n Hr). cbn [events_of].
  rewrite alc_targets_app, (proj1 (proj2 setup_events_quiet)). cbn [app].
  apply targets_from; [exact He | unfold bounded; simpl; lia | reflexivity].
Qed.

Lemma targets_within_one_step_of_mean_witness :
  adc_12bit full_scale
  /\ codec_responds full_scale = true
  /\ Forall2 (fun v m => m - 1 <= v <= m)
       (alc_targets (events_of (sketch full_scale 0 3)))
       (List.map (mean_alcTarget (adc full_scale)) (List.seq 0 3)).
Proof.
  split; [intros k; simpl; lia|]. split; [reflexivity|].
  apply (targets_within_one_step_of_mean full_scale 0 3);
    [intros k; simpl; lia | reflexivity].
Defined.

(** In the first turn of [loop] the accumulator starts from 0, so the
    target passed is exactly the mapped mean of the 250 readings; it lies
    between 1 and 15, the level 0 being out of reach of a mean of 12-bit
    readings. *)
Theorem first_target_is_the_mean (e : env) (fuel : nat) :
  adc_12bit e ->
  codec_responds e = true ->
  alc_targets (events_of (sketch e fuel 1)) = [mean_alcTarget (adc e) 0]
  /\ 1 <= mean_alcTarget (adc e) 0 <= 15.
Proof.
  intros He Hr. rewrite (alc_sketch_connected e fuel 1 Hr). cbn [events_of].
  rewrite alc_targets_app, (proj1 (proj2 setup_events_quiet)).
  cbn [app turns_events]. rewrite alc_targets_app, alc_targets_loop_events.
  cbn [app alc_targets].
  assert (Hb : bounded initial) by (unfold bounded; simpl; lia).
  destruct (averaged_bounded e initial He Hb) as [Ha Hab].
  pose proof (sum_reads_bounds (adc e) 250 He 0%nat) as Hsum.
  change (Z.of_nat 250) with 250 in Hsum.
  change (userInputA0 initial) with 0 in Ha.
  change (adc_reads initial) with 0%nat in Ha.
  rewrite Z.add_0_l in Ha.
  rewrite (target_closed e initial Hab), Ha.
  unfold mean_alcTarget. change (250 * 0)%nat with 0%nat.
  assert (Hm : 0 <= sum_reads (adc e) 0 250 ÷ 250 <= 4095).
  { rewrite Z.quot_div_nonneg by lia. split; [apply Z.div_pos; lia|].
    apply Z.lt_succ_r, Z.div_lt_upper_bound; lia. }
  rewrite map_pot_closed by lia.
  split; [reflexivity|].
  generalize dependent (sum_reads (adc e) 0 250 ÷ 250). intros m _ Hm.
  pose proof (Z.div_mod (15 * m) 4096 ltac:(lia)).
  pose proof (Z.mod_pos_bound (15 * m) 4096 ltac:(lia)).
  lia.
Qed.

Lemma first_target_is_the_mean_witness :
  adc_12bit full_scale
  /\ codec_responds full_scale = true
  /\ alc_targets (events_of (sketch full_scale 0 1))
     = [mean_alcTarget (adc full_scale) 0]
  /\ 1 <= mean_alcTarget (adc full_scale) 0 <= 15.
Proof.
  split; [intros k; simpl; lia|]. split; [reflexivity|].
  apply (first_target_is_the_mean full_scale 0);
    [intros k; simpl; lia | reflexivity].
Defined.

Lemma exact_average_turns (e : env) (n : nat) :
  adc_16bit e ->
  userInputA0 (turns_state e n initial) = exact_average (adc e) n
  /\ 0 <= exact_average (adc e) n <= 65798.
Proof.
  intros He. induction n as [|n [IHeq IHb]].
  - split; [reflexivity | simpl; lia].
  - rewrite turns_state_S_last.
    change (userInputA0 (next e (turns_state e n initial)))
      with (averaged e (turns_state e n initial)).
    unfold averaged. rewrite adc_reads_turns, IHeq.
    change (adc_reads initial + 250 * n)%nat with (250 * n)%nat.
    pose proof (sum_reads_upto (adc e) 65535 250 He (250 * n)%nat) as Hsum.
    change (Z.of_nat 250) with 250 in Hsum.
    rewrite (accumulate_upto (adc e) 65535 250 He)
      by (change (Z.of_nat 250) with 250; lia).
    cbn [exact_average].
    split; [reflexivity|].
    rewrite Z.quot_div_nonneg by lia.
    split; [apply Z.div_pos; lia|].
    apply Z.lt_succ_r, Z.div_lt_upper_bound; lia.
Qed.

(** Whatever 16-bit values [analogRead] returns, the [long] accumulator
    never overflows: after any number of turns [userInputA0] is the value
    the same additions and divisions give in unbounded integers, and it
    stays between 0 and 65798. *)
Theorem accumulator_never_wraps (e : env) (fuel n : nat) :
  adc_16bit e ->
  codec_responds e = true ->
  userInputA0 (state_of (sketch e fuel n)) = exact_average (adc e) n
  /\ 0 <= userInputA0 (state_of (sketch e fuel n)) <= 65798.
Proof.
  intros He Hr. rewrite (state_of_sketch e fuel n Hr).
  destruct (exact_average_turns e n He) as [Heq Hb].
  rewrite Heq. split; [reflexivity | exact Hb].
Qed.

Lemma accumulator_never_wraps_witness :
  adc_16bit full_scale
  /\ codec_responds full_scale = true
  /\ userInputA0 (state_of (sketch full_scale 0 2))
     = exact_average (adc full_scale) 2
  /\ 0 <= userInputA0 (state_of (sketch full_scale 0 2)) <= 65798.
Proof.
  split; [intros k; simpl; lia|]. split; [reflexivity|].
  apply (accumulator_never_wraps full_scale 0 2);
    [intros k; simpl; lia | reflexivity].
Defined.

Lemma alc_turns_measures (e : env) (n : nat) :
  forall s,
    count is_analogRead (turns_events e n s) = (250 * n)%nat
    /\ total_delay (turns_events e n s) = 1250 * Z.of_nat n
    /\ printed_ints (turns_events e n s) = alc_targets (turns_events e n s).
Proof.
  induction n as [|n IH]; intros s.
  - split; [reflexivity|]. split; reflexivity.
  - cbn [turns_events]. destruct (IH (next e s)) as [IH1 [IH2 IH3]].
    rewrite count_app, total_delay_app, printed_ints_app, alc_targets_app.
    rewrite IH1, IH2, IH3, alc_targets_loop_events.
    unfold loop_events.
    rewrite count_app, total_delay_app, printed_ints_app.
    rewrite count_analogRead_reading_events, total_delay_reading_events,
      printed_ints_reading_events.
    split; [|split].
    + change (count is_analogRead
                [SerialPrint "alcTarget: "; SerialPrintlnInt (target e s);
                 CodecMethod (Codec "setAlcTarget" [Val (target e s)]);
                 Delay 1000]) with 0%nat.
      lia.
    + cbn [total_delay]. change (Z.of_nat 250) with 250. lia.
    + reflexivity.
Qed.

(** A turn of [loop] samples A0 exactly 250 times and spends 1250 ms in
    [delay], whatever is read; [setup] does neither.  So after [n] turns a
    responding sketch has taken 250 n readings and waited 1250 n ms, and a
    sketch whose codec did not respond has done neither. *)
Theorem loop_sampling_and_timing (e : env) (fuel n : nat) :
  count is_analogRead (events_of (sketch e fuel n))
    = (if codec_responds e then 250 * n else 0)%nat
  /\ adc_reads (state_of (sketch e fuel n))
     = (if codec_responds e then 250 * n else 0)%nat
  /\ total_delay (events_of (sketch e fuel n))
     = (if codec_responds e then 1250 * Z.of_nat n else 0).
Proof.
  destruct (codec_responds e) eqn:Hr.
  - rewrite (alc_sketch_connected e fuel n Hr). cbn [events_of state_of].
    destruct (alc_turns_measures e n initial) as [H1 [H2 _]].
    destruct setup_events_quiet as [_ [_ [Hd Hc]]].
    rewrite count_app, total_delay_app, Hd, Hc, H1, H2, adc_reads_turns.
    change (adc_reads initial) with 0%nat.
    split; [|split]; lia.
  - rewrite (alc_sketch_refused e fuel n Hr). repeat split.
Qed.


(** The source notes that [setALRCGPIO] "should not be changed while ADC
    is enabled".  In every run it is called once, and that call comes
    before the calls that enable the left and the right ADC. *)
Theorem ALRCGPIO_set_before_ADC_enabled (e : env) (fuel n : nat) :
  codec_responds e = true ->
  count (calls "setALRCGPIO") (events_of (sketch e fuel n)) = 1%nat
  /\ count (calls "enableAdcLeft") (events_of (sketch e fuel n)) = 1%nat
  /\ count (calls "enableAdcRight") (events_of (sketch e fuel n)) = 1%nat
  /\ calls_precede "setALRCGPIO" "enableAdcLeft" (events_of (sketch e fuel n))
  /\ calls_precede "setALRCGPIO" "enableAdcRight" (events_of (sketch e fuel n)).
Proof.
  intros Hr. rewrite (alc_sketch_connected e fuel n Hr). cbn [events_of].
  set (t := greeted ++ events_of (codec_setup initial)).
  assert (Hsplit : t = List.firstn 38 t ++ List.skipn 38 t)
    by (symmetry; apply List.firstn_skipn).
  split; [|split; [|split; [|split]]].
  - rewrite count_app, count_calls_turns. subst t. vm_compute. reflexivity.
  - rewrite count_app, count_calls_turns. subst t. vm_compute. reflexivity.
  - rewrite count_app, count_calls_turns. subst t. vm_compute. reflexivity.
  - exists (List.firstn 38 t), (List.skipn 38 t ++ turns_events e n initial).
    split; [rewrite app_assoc, <- Hsplit; reflexivity|].
    rewrite count_app, count_calls_turns. subst t. vm_compute. split; reflexivity.
  - exists (List.firstn 38 t), (List.skipn 38 t ++ turns_events e n initial).
    split; [rewrite app_assoc, <- Hsplit; reflexivity|].
    rewrite count_app, count_calls_turns. subst t. vm_compute. split; reflexivity.
Qed.

Lemma ALRCGPIO_set_before_ADC_enabled_witness :
  codec_responds grounded = true
  /\ count (calls "setALRCGPIO") (events_of (sketch grounded 0 2)) = 1%nat
  /\ count (calls "enableAdcLeft") (events_of (sketch grounded 0 2)) = 1%nat
  /\ count (calls "enableAdcRight") (events_of (sketch grounded 0 2)) = 1%nat
  /\ calls_precede "setALRCGPIO" "enableAdcLeft" (events_of (sketch grounded 0 2))
  /\ calls_precede "setALRCGPIO" "enableAdcRight" (events_of (sketch grounded 0 2)).
Proof.
  split; [reflexivity|].
  apply (ALRCGPIO_set_before_ADC_enabled grounded 0 2). reflexivity.
Defined.

(** [map(userInputA0, 0, 4096, 15, 0)] runs against the potentiometer: a
    larger average never gives a larger target.  The target is
    15 - floor(15 u / 4096); it is 15 exactly for averages up to 273 and 0
    exactly for averages of 4096 and more. *)
Theorem target_falls_as_reading_rises (u u' : Z) :
  0 <= u -> u <= u' -> u' <= 4111 ->
  map u' 0 4096 15 0 <= map u 0 4096 15 0
  /\ map u 0 4096 15 0 = 15 - 15 * u / 4096
  /\ (map u 0 4096 15 0 = 15 <-> u <= 273)
  /\ (map u 0 4096 15 0 = 0 <-> 4096 <= u).
Proof.
  intros H0 H1 H2.
  rewrite !map_pot_closed by lia.
  pose proof (Z.div_mod (15 * u) 4096 ltac:(lia)).
  pose proof (Z.mod_pos_bound (15 * u) 4096 ltac:(lia)).
  pose proof (Z.div_mod (15 * u') 4096 ltac:(lia)).
  pose proof (Z.mod_pos_bound (15 * u') 4096 ltac:(lia)).
  repeat split; lia.
Qed.

Lemma target_falls_as_reading_rises_witness :
  0 <= 273 /\ 273 <= 4096 /\ 4096 <= 4111
  /\ map 4096 0 4096 15 0 <= map 273 0 4096 15 0
  /\ map 273 0 4096 15 0 = 15 - 15 * 273 / 4096
  /\ (map 273 0 4096 15 0 = 15 <-> 273 <= 273)
  /\ (map 273 0 4096 15 0 = 0 <-> 4096 <= 273).
Proof.
  split; [lia|]. split; [lia|]. split; [lia|].
  apply (target_falls_as_reading_rises 273 4096); lia.
Defined.

End AlcExtras.

(* ================================================================== *)
(** ** Example 8: further properties of [setup] and [loop] *)
(* ================================================================== *)

Module PassExtras.
Import Passthrough PassNotions PassMeasures PassFacts.

Lemma written_bytes_app (t1 t2 : list event) :
  written_bytes (t1 ++ t2) = written_bytes t1 ++ written_bytes t2.
Proof.
  induction t1 as [|ev t1 IH]; [reflexivity|].
  destruct ev; cbn [app written_bytes]; rewrite IH, ?app_assoc; reflexivity.
Qed.

Lemma reads_next (e : env) (s : state) : reads (next e s) = S (reads s).
Proof. unfold next. destruct (read_ok e s); reflexivity. Qed.

Lemma writes_next (e : env) (s : state) :
  writes (next e s) = if read_ok e s then S (writes s) else writes s.
Proof. unfold next. destruct (read_ok e s); reflexivity. Qed.

Lemma setup_events_measures :
  written_bytes (greeted ++ events_of (codec_setup initial) ++ i2s_setup_events) = []
  /\ count is_read (greeted ++ events_of (codec_setup initial) ++ i2s_setup_events) = 0%nat
  /\ count is_write (greeted ++ events_of (codec_setup initial) ++ i2s_setup_events) = 0%nat
  /\ List.filter is_i2s (greeted ++ events_of (codec_setup initial) ++ i2s_setup_events)
     = i2s_setup_events.
Proof. vm_compute. repeat split. Qed.

Lemma pass_turns_measures (e : env) (n : nat) :
  forall s,
    written_bytes (turns_events e n s) = accepted e (reads s) n
    /\ count is_read (turns_events e n s) = n
    /\ count is_write (turns_events e n s) = ok_reads e (reads s) n
    /\ reads (turns_state e n s) = (reads s + n)%nat
    /\ writes (turns_state e n s) = (writes s + ok_reads e (reads s) n)%nat
    /\ List.filter is_i2s (turns_events e n s) = turns_events e n s
    /\ forallb (fun ev => is_read ev || is_write ev) (turns_events e n s) = true.
Proof.
  induction n as [|n IH]; intros s.
  - cbn [turns_events turns_state accepted ok_reads].
    repeat split; try reflexivity; lia.
  - cbn [turns_events turns_state accepted ok_reads].
    destruct (IH (next e s)) as [I1 [I2 [I3 [I4 [I5 [I6 I7]]]]]].
    rewrite written_bytes_app, !count_app, List.filter_app, List.forallb_app.
    rewrite I1, I2, I3, I4, I5, I6, I7, reads_next, writes_next.
    unfold loop_events, read_ok, incoming.
    destruct (rx_err (rx e (reads s)) =? ESP_OK);
      cbn [written_bytes count List.filter is_read is_write is_i2s List.length
           forallb orb andb app];
      rewrite ?app_nil_r; repeat split; try reflexivity; lia.
Qed.

Lemma ok_reads_le (e : env) (n : nat) : forall k, (ok_reads e k n <= n)%nat.
Proof.
  induction n as [|n IH]; intros k; [apply Nat.le_refl|].
  cbn [ok_reads]. specialize (IH (S k)).
  destruct (rx_err (rx e k) =? ESP_OK); lia.
Qed.

(** What [i2s_read] stores never reaches past the first [bufferLen] bytes. *)
Lemma skipn_received (got : list byte) (s : state) :
  (List.length got <= 64)%nat -> (64 <= List.length (sBuffer s))%nat ->
  List.skipn 64 (sBuffer (received got s)) = List.skipn 64 (sBuffer s).
Proof.
  intros Hg Hs. unfold received; cbn [sBuffer].
  rewrite List.skipn_app, (List.skipn_all2 got) by exact Hg.
  rewrite List.skipn_skipn. cbn [app].
  replace (64 - List.length got + List.length got)%nat with 64%nat by lia.
  reflexivity.
Qed.

Lemma skipn_next (e : env) (s : state) :
  allocated s ->
  List.skipn 64 (sBuffer (next e s)) = List.skipn 64 (sBuffer s).
Proof.
  intros H.
  pose proof (incoming_length e s) as Hi.
  assert (Hg : (List.length (incoming e s) <= 64)%nat)
    by (unfold bufferLen in Hi; lia).
  assert (Hs : (64 <= List.length (sBuffer s))%nat).
  { unfold allocated, sizeof_sBuffer, bufferLen, sizeof_int16_t in H. lia. }
  unfold next. destruct (read_ok e s);
    [change (sBuffer (sent (received (incoming e s) s)))
       with (sBuffer (received (incoming e s) s))|];
    apply skipn_received; assumption.
Qed.

Lemma skipn_turns (e : env) (n : nat) :
  forall s, allocated s ->
    List.skipn 64 (sBuffer (turns_state e n s)) = List.skipn 64 (sBuffer s).
Proof.
  induction n as [|n IH]; intros s H; [reflexivity|].
  cbn [turns_state]. rewrite IH by (apply next_allocated, H).
  apply skipn_next, H.
Qed.

(** Over any run the bytes handed to [i2s_write] are, in order, the bytes
    delivered by the reads that returned [ESP_OK], each cut to [bufferLen]
    bytes: nothing is dropped, repeated or reordered, and what a failed read
    left in [sBuffer] is never sent. *)
Theorem dac_stream_is_adc_stream (e : env) (fuel n : nat) :
  written_bytes (events_of (sketch e fuel n))
  = if codec_responds e then accepted e 0 n else [].
Proof.
  destruct (codec_responds e) eqn:Hr.
  - rewrite (pass_sketch_connected e fuel n Hr). cbn [events_of].
    rewrite written_bytes_app, (proj1 setup_events_measures).
    destruct (pass_turns_measures e n (configured initial)) as [H1 _].
    rewrite H1. reflexivity.
  - rewrite (pass_sketch_refused e fuel n Hr). reflexivity.
Qed.

(** Every turn of [loop] makes one [i2s_read], and one [i2s_write] exactly
    when that read returned [ESP_OK]: after [n] turns the sketch has made
    [n] reads and as many writes as good reads, never more writes than
    reads, and it has consumed the driver's answers in that number. *)
Theorem one_read_per_turn (e : env) (fuel n : nat) :
  codec_responds e = true ->
  count is_read (events_of (sketch e fuel n)) = n
  /\ count is_write (events_of (sketch e fuel n)) = ok_reads e 0 n
  /\ (count is_write (events_of (sketch e fuel n))
      <= count is_read (events_of (sketch e fuel n)))%nat
  /\ reads (state_of (sketch e fuel n)) = n
  /\ writes (state_of (sketch e fuel n)) = ok_reads e 0 n.
Proof.
  intros Hr. rewrite (pass_sketch_connected e fuel n Hr).
  cbn [events_of state_of].
  destruct setup_events_measures as [_ [Sr [Sw _]]].
  destruct (pass_turns_measures e n (configured initial))
    as [_ [H2 [H3 [H4 [H5 _]]]]].
  set (t := greeted ++ events_of (codec_setup initial) ++ i2s_setup_events) in *.
  rewrite (count_app is_read t), (count_app is_write t).
  rewrite Sr, Sw, H2, H3, H4, H5.
  change (reads (configured initial)) with 0%nat.
  change (writes (configured initial)) with 0%nat.
  pose proof (ok_reads_le e n 0%nat).
  repeat split; lia.
Qed.

Lemma one_read_per_turn_witness :
  codec_responds flaky = true
  /\ count is_read (events_of (sketch flaky 0 5)) = 5%nat
  /\ count is_write (events_of (sketch flaky 0 5)) = ok_reads flaky 0 5
  /\ (count is_write (events_of (sketch flaky 0 5))
      <= count is_read (events_of (sketch flaky 0 5)))%nat
  /\ reads (state_of (sketch flaky 0 5)) = 5%nat
  /\ writes (state_of (sketch flaky 0 5)) = ok_reads flaky 0 5.
Proof.
  split; [reflexivity|].
  apply (one_read_per_turn flaky 0 5). reflexivity.
Defined.

(** The I2S calls of a run come in a fixed order: [i2s_driver_install],
    then [i2s_set_pin] with the pins of the wiring table (BCK 16, WS 25,
    data out 4, data in 17), then [i2s_start], and after that nothing but
    reads and writes; a sketch whose codec did not respond makes none. *)
Theorem i2s_calls_in_order (e : env) (fuel n : nat) :
  exists transfers,
    List.filter is_i2s (events_of (sketch e fuel n))
    = (if codec_responds e
       then [I2sDriverInstall I2S_NUM_0 installed_config;
             I2sSetPin I2S_NUM_0
               {| bck_io_num := 16; ws_io_num := 25;
                  data_out_num := 4; data_in_num := 17 |};
             I2sStart I2S_NUM_0] ++ transfers
       else [])
    /\ forallb (fun ev => is_read ev || is_write ev) transfers = true
    /\ started (state_of (sketch e fuel n)) = codec_responds e.
Proof.
  exists (turns_events e n (configured initial)).
  destruct (pass_turns_measures e n (configured initial))
    as [_ [_ [_ [_ [_ [H6 H7]]]]]].
  destruct (codec_responds e) eqn:Hr.
  - rewrite (pass_sketch_connected e fuel n Hr). cbn [events_of state_of].
    rewrite List.filter_app, H6, (proj2 (proj2 (proj2 setup_events_measures))).
    split; [reflexivity|]. split; [exact H7|].
    pose proof (PassClaims.configuration_turns e n (configured initial)) as Hc.
    unfold configuration in Hc. cbn [configured started] in Hc.
    congruence.
  - rewrite (pass_sketch_refused e fuel n Hr). cbn [events_of state_of].
    split; [reflexivity|]. split; [exact H7 | reflexivity].
Qed.

(** [sBuffer] is declared with [bufferLen] two-byte elements but every
    transfer is of at most [bufferLen] bytes: a turn of [loop] leaves the
    bytes from offset 64 on as they were, so in any run the upper half of
    [sBuffer] still holds the zeros it was initialised with. *)
Theorem upper_half_of_sBuffer_unused (e : env) (fuel n : nat) :
  List.skipn (Z.to_nat bufferLen) (sBuffer (state_of (sketch e fuel n)))
  = List.repeat x00 (Z.to_nat bufferLen)
  /\ (forall s, allocated s ->
        List.skipn (Z.to_nat bufferLen) (sBuffer (state_of (loop e s)))
        = List.skipn (Z.to_nat bufferLen) (sBuffer s)).
Proof.
  change (Z.to_nat bufferLen) with 64%nat.
  split.
  - destruct (codec_responds e) eqn:Hr.
    + rewrite (pass_sketch_connected e fuel n Hr). cbn [state_of].
      rewrite skipn_turns by reflexivity. reflexivity.
    + rewrite (pass_sketch_refused e fuel n Hr). reflexivity.
  - intros s Hs. rewrite (pass_loop_run e s Hs). cbn [state_of].
    apply skipn_next, Hs.
Qed.

End PassExtras.
